(** * browser-in-browser backend: session control and frame streaming

    A shallow embedding of [src/backend/main.py].  The FastAPI handlers act
    on one module-level [state] object and talk to two outside parties: the
    Playwright engine that owns the page, and the WebSocket transport of each
    viewer.  Both are modelled as part of an explicit [World]:

    - the page is a small browser simulation (session history, focused
      element, pointer) on which the JavaScript snippets of the source are
      interpreted;
    - every outside call is appended to a call log and may raise, as decided
      by an oracle stored in the world;
    - the coroutine [screenshot_loop] is a machine that runs from one
      [await] to the next, other tasks acting on the world in between. *)

From Stdlib Require Import PrimFloat ZArith Floats.
From Stdlib.Strings Require Import Byte.
From stdpp Require Import gmap strings list.

Open Scope float_scope.

(** ** Values and exceptions *)

(** A viewer connection; Python hashes a [WebSocket] by object identity. *)
Abbreviation WebSocket := nat.

(** The values that cross from the page's JavaScript to Python and into the
    JSON bodies of the responses. *)
Inductive Value :=
| VNone
| VBool (b : bool)
| VStr (s : string).

(** Python truthiness, as used by [if not has_focused]. *)
Definition truthy (v : Value) : bool :=
  match v with
  | VNone => false
  | VBool b => b
  | VStr "" => false
  | VStr _ => true
  end.

(** [f"{v}"] *)
Definition format_value (v : Value) : string :=
  match v with
  | VNone => "None"
  | VBool true => "True"
  | VBool false => "False"
  | VStr s => s
  end.

Definition JsonResponse := list (string * Value).

(** The classes of [Exception] that occur.  [EngineError] stands for whatever
    Playwright or the transport raises (its [Error], [TimeoutError], a closed
    socket); none of the classes derives from another, all derive from
    [Exception].  [BaseException]s that are not [Exception]s (task
    cancellation, interpreter exit) are outside the model. *)
Inductive exn_class :=
| RuntimeError
| AttributeError
| TypeError
| KeyError
| WebSocketDisconnect
| EngineError.

(** An exception value: its class and the text [str(e)] gives. *)
Record exn := Exn { cls : exn_class; str : string }.

Inductive result (A : Type) :=
| Ok (a : A)
| Raise (e : exn).
Arguments Ok {A} a.
Arguments Raise {A} e.

(** What FastAPI gets back from an HTTP handler: a JSON body, or
    [HTTPException(status_code, detail)]. *)
Inductive http_result :=
| Response (body : JsonResponse)
| HTTPException (status_code : Z) (detail : string).

(** ** Payloads (the pydantic models) *)

(** [ClickPayload]: two floats, no further constraint. *)
Record ClickPayload := { x : float; y : float }.

Record KeyboardPayload := { key : string }.

Record GotoPayload := { url : string }.

(** ** The simulated page *)

Record Element := {
  tagName : string;
  contentEditable : string;
  focusable : bool
}.

(** One entry of the session history; [entry_state] is [window.history.state]
    while the entry is current ([None] for JavaScript's [null], otherwise the
    identity of the state object). *)
Record HistoryEntry := {
  entry_url : string;
  entry_state : option nat
}.

Record Page := {
  entries : list HistoryEntry;
  current : nat;
  activeElement : option Element;
  elementFromPoint : float -> float -> option Element;
  pointer : option (float * float);
  rendering : list byte;
  page_closed : bool
}.

(** The part of a page that navigation acts on. *)
Definition nav_state (p : Page) : list HistoryEntry * nat :=
  (entries p, current p).

Definition set_current (i : nat) (p : Page) : Page :=
  {| entries := entries p; current := i; activeElement := activeElement p;
     elementFromPoint := elementFromPoint p; pointer := pointer p;
     rendering := rendering p; page_closed := page_closed p |}.

Definition set_entries (es : list HistoryEntry) (p : Page) : Page :=
  {| entries := es; current := current p; activeElement := activeElement p;
     elementFromPoint := elementFromPoint p; pointer := pointer p;
     rendering := rendering p; page_closed := page_closed p |}.

Definition set_activeElement (e : option Element) (p : Page) : Page :=
  {| entries := entries p; current := current p; activeElement := e;
     elementFromPoint := elementFromPoint p; pointer := pointer p;
     rendering := rendering p; page_closed := page_closed p |}.

Definition set_pointer (px py : float) (p : Page) : Page :=
  {| entries := entries p; current := current p;
     activeElement := activeElement p;
     elementFromPoint := elementFromPoint p; pointer := Some (px, py);
     rendering := rendering p; page_closed := page_closed p |}.

Definition set_page_closed (p : Page) : Page :=
  {| entries := entries p; current := current p;
     activeElement := activeElement p;
     elementFromPoint := elementFromPoint p; pointer := pointer p;
     rendering := rendering p; page_closed := true |}.

(** [window.history]: the traversals move the current index when the target
    entry exists and do nothing otherwise.  A traversal is carried out by
    the time the call that asked for it returns. *)
Definition history_length (p : Page) : nat := length (entries p).

Definition history_state (p : Page) : option nat :=
  match entries p !! current p with
  | Some e => entry_state e
  | None => None
  end.

Definition has_forward_entry (p : Page) : bool :=
  bool_decide (S (current p) < length (entries p)).

Definition history_forward (p : Page) : Page :=
  if has_forward_entry p then set_current (S (current p)) p else p.

Definition history_back (p : Page) : Page :=
  match current p with
  | O => p
  | S i => set_current i p
  end.

Definition current_url (p : Page) : option string :=
  entry_url <$> entries p !! current p.

(** A navigation to another document drops the forward entries and appends
    the new one; a navigation to the URL already shown replaces the current
    entry, so the history keeps its length.  URLs are stored and compared
    as they are given: the model takes them as already serialised and not
    redirected, and no property below is about the URL a [goto] ends on. *)
Definition navigate (u : string) (p : Page) : Page :=
  if bool_decide (current_url p = Some u) then
    set_entries (<[current p := {| entry_url := u; entry_state := None |}]>
                   (entries p)) p
  else
    set_current (S (current p))
      (set_entries (take (S (current p)) (entries p)
                      ++ [{| entry_url := u; entry_state := None |}]) p).

(** The JavaScript snippets that [page.evaluate] gets to run, one
    constructor per snippet.  The focus snippet of [click_coordinate] is not
    among them: its call never reaches the page (see [click_coordinate]). *)
Inductive Script :=
| HasFocusedInput     (* type_keys: is document.activeElement input-like *)
| HistoryLengthGt1    (* go_back: "window.history.length > 1" *)
| ForwardProbe.       (* go_forward: the can_go_forward snippet *)

(** [active.tagName === 'INPUT' || active.tagName === 'TEXTAREA' ||
    active.contentEditable === 'true'] *)
Definition input_like (e : Element) : bool :=
  bool_decide (tagName e = "INPUT")
  || bool_decide (tagName e = "TEXTAREA")
  || bool_decide (contentEditable e = "true").

Definition run_script (s : Script) (args : list float) (p : Page)
  : Page * Value :=
  match s with
  | HasFocusedInput =>
      (* [active && (...)]: a null [active] is returned as it is *)
      match activeElement p with
      | Some e => (p, VBool (input_like e))
      | None => (p, VNone)
      end
  | HistoryLengthGt1 =>
      (p, VBool (bool_decide (1 < history_length p)))
  | ForwardProbe =>
      (* const current = window.history.state;
         return window.history.forward(), window.history.state !== current;
         [history.forward()] only queues the traversal: while the snippet
         runs the entry it started on is still the current one, and that is
         the entry whose state it compares.  The traversal is carried out
         afterwards; the model has it done when the call returns. *)
      let cur := history_state p in
      let p' := history_forward p in
      (p', VBool (negb (bool_decide (history_state p = cur))))
  end.

(** ** The application state and the outside world *)

(** The engine-side objects behind the handles of [web_appState]: all that is
    tracked is whether each has been released. *)
Record Playwright := { pw_stopped : bool }.
Record Browser := { br_closed : bool }.
Record BrowserContext := { ctx_closed : bool }.

(** [web_appState]: every handle starts as [None]; [__post_init__] makes
    [active_connections] the empty set. *)
Record web_appState := {
  playwright : option Playwright;
  browser : option Browser;
  context : option BrowserContext;
  page : option Page;
  active_connections : gset WebSocket
}.

(** [state = web_appState()] *)
Definition initial_state : web_appState :=
  {| playwright := None; browser := None; context := None; page := None;
     active_connections := ∅ |}.

(** Every call that leaves the process, with its arguments. *)
Inductive Call :=
| PlaywrightStart
| ChromiumLaunch
| NewContext (width height : Z)
| NewPage
| Screenshot (type : string) (quality : Z)
| MouseMove (px py : float)
| MouseClick (px py : float)
| Evaluate (script : Script) (args : list float)
| KeyboardPress (k : string)
| Goto (u : string) (wait_until : option string)
| GoBack (wait_until : string)
| GoForward (wait_until : string)
| ContextClose
| BrowserClose
| PlaywrightStop
| Accept (ws : WebSocket)
| SendBytes (ws : WebSocket) (data : list byte)
| Sleep (seconds : float).

Inductive LogLevel := INFO | ERROR.

(** The world a coroutine runs in: the module-level [state], the exception
    (if any) each outside call would raise if issued now, the calls issued so
    far (oldest first) and the lines written through [logging]. *)
Record World := {
  state : web_appState;
  raises : Call -> option exn;
  calls : list Call;
  logged : list (LogLevel * string)
}.

Definition set_state (s : web_appState) (w : World) : World :=
  {| state := s; raises := raises w; calls := calls w; logged := logged w |}.

Definition set_raises (r : Call -> option exn) (w : World) : World :=
  {| state := state w; raises := r; calls := calls w; logged := logged w |}.

Definition record_call (c : Call) (w : World) : World :=
  {| state := state w; raises := raises w; calls := calls w ++ [c];
     logged := logged w |}.

Definition record_log (l : LogLevel) (line : string) (w : World) : World :=
  {| state := state w; raises := raises w; calls := calls w;
     logged := logged w ++ [(l, line)] |}.

Definition set_playwright (h : option Playwright) (s : web_appState)
  : web_appState :=
  {| playwright := h; browser := browser s; context := context s;
     page := page s; active_connections := active_connections s |}.

Definition set_browser (h : option Browser) (s : web_appState)
  : web_appState :=
  {| playwright := playwright s; browser := h; context := context s;
     page := page s; active_connections := active_connections s |}.

Definition set_context (h : option BrowserContext) (s : web_appState)
  : web_appState :=
  {| playwright := playwright s; browser := browser s; context := h;
     page := page s; active_connections := active_connections s |}.

Definition set_page (h : option Page) (s : web_appState) : web_appState :=
  {| playwright := playwright s; browser := browser s; context := context s;
     page := h; active_connections := active_connections s |}.

Definition set_active_connections (a : gset WebSocket) (s : web_appState)
  : web_appState :=
  {| playwright := playwright s; browser := browser s; context := context s;
     page := page s; active_connections := a |}.

(** ** Coroutines between two suspension points *)

(** A computation on the world that returns or raises. *)
Definition M (A : Type) : Type := World -> result A * World.

#[export] Instance M_ret : MRet M := fun A a w => (Ok a, w).

#[export] Instance M_bind : MBind M := fun A B f m w =>
  match m w with
  | (Ok a, w') => f a w'
  | (Raise e, w') => (Raise e, w')
  end.

Definition get_state : M web_appState := fun w => (Ok (state w), w).

Definition modify_state (f : web_appState -> web_appState) : M unit :=
  fun w => (Ok tt, set_state (f (state w)) w).

Definition logging (l : LogLevel) (line : string) : M unit :=
  fun w => (Ok tt, record_log l line w).

(** What a successful engine call does to the page and what it returns.
    Of a pointer action only the pointer position is kept: what the document
    makes of a click or of a key (focus moving or being lost, handlers,
    navigation) is outside the model, and no property below speaks of the
    focus after a click. *)
Definition engine (c : Call) (p : Page) : Page * Value :=
  match c with
  | MouseMove px py => (set_pointer px py p, VNone)
  | MouseClick px py => (set_pointer px py p, VNone)
  | Evaluate s args => run_script s args p
  | Goto u _ => (navigate u p, VNone)
  | GoBack _ => (history_back p, VNone)
  | GoForward _ => (history_forward p, VNone)
  | _ => (p, VNone)
  end.

(** [await state.page.<call>]: the attribute [state.page] is read when the
    call is made; the call is logged, then raises or acts on the page. *)
Definition page_call (c : Call) : M Value := fun w =>
  match page (state w) with
  | None =>
      (Raise (Exn AttributeError "'NoneType' object has no attribute"), w)
  | Some p =>
      let w1 := record_call c w in
      match raises w c with
      | Some e => (Raise e, w1)
      | None =>
          let '(p', v) := engine c p in
          (Ok v, set_state (set_page (Some p') (state w1)) w1)
      end
  end.

(** A call to the transport or to the event loop: logged; raises or not. *)
Definition outside_call (c : Call) : M unit := fun w =>
  let w1 := record_call c w in
  match raises w c with
  | Some e => (Raise e, w1)
  | None => (Ok tt, w1)
  end.

(** ** The HTTP handlers *)

(** The frame every command handler shares:
    [if not state.page: raise HTTPException(500, "Page not initialized")],
    then [try: body / except Exception as e: raise HTTPException(500, str(e))]. *)
Definition command (body : M JsonResponse) : World -> http_result * World :=
  fun w =>
    match page (state w) with
    | None => (HTTPException 500 "Page not initialized", w)
    | Some _ =>
        match body w with
        | (Ok r, w') => (Response r, w')
        | (Raise e, w') => (HTTPException 500 (str e), w')
        end
    end.

Definition hover_coordinate (payload : ClickPayload)
  : World -> http_result * World :=
  command (
    _ ← page_call (MouseMove (x payload * 1280) (y payload * 800));
    mret [("success", VBool true)]).

(** [Page.evaluate(expression, arg=None)] takes the script and at most one
    argument; [click_coordinate] passes two.  This is the [TypeError]
    Python raises for it, with the text CPython 3.10 and later give. *)
Definition evaluate_arity_error : exn :=
  Exn TypeError
    "Page.evaluate() takes from 2 to 3 positional arguments but 4 were given".

(** [state.page.evaluate(script, x, y)], as [click_coordinate] writes it:
    Python refuses the call before anything is sent to the engine, so the
    focus snippet is never run. *)
Definition evaluate_with_two_arguments : M Value := fun w =>
  match page (state w) with
  | None =>
      (Raise (Exn AttributeError "'NoneType' object has no attribute"), w)
  | Some _ => (Raise evaluate_arity_error, w)
  end.

Definition click_coordinate (payload : ClickPayload)
  : World -> http_result * World :=
  command (
    _ ← page_call (MouseClick (x payload * 1280) (y payload * 800));
    element ← evaluate_with_two_arguments;
    mret [("success", VBool true); ("focused", element)]).

Definition type_keys (payload : KeyboardPayload)
  : World -> http_result * World :=
  command (
    has_focused ← page_call (Evaluate HasFocusedInput []);
    _ ← logging INFO ("Focused element: " +:+ format_value has_focused);
    if negb (truthy has_focused) then
      mret [("success", VBool false);
            ("error", VStr "No input element is focused")]
    else
      _ ← page_call (KeyboardPress (key payload));
      mret [("success", VBool true)]).

Definition goto_url (payload : GotoPayload) : World -> http_result * World :=
  command (
    _ ← page_call (Goto (url payload) (Some "networkidle"));
    mret [("success", VBool true)]).

Definition go_back : World -> http_result * World :=
  command (
    can_go_back ← page_call (Evaluate HistoryLengthGt1 []);
    if negb (truthy can_go_back) then
      mret [("success", VBool false);
            ("error", VStr "No previous page in history")]
    else
      _ ← page_call (GoBack "networkidle");
      mret [("success", VBool true)]).

Definition go_forward : World -> http_result * World :=
  command (
    can_go_forward ← page_call (Evaluate ForwardProbe []);
    if negb (truthy can_go_forward) then
      mret [("success", VBool false);
            ("error", VStr "No next page in history")]
    else
      _ ← page_call (GoForward "networkidle");
      mret [("success", VBool true)]).

(** ** Session lifecycle *)

(** The page [context.new_page()] hands out: a blank document, nothing
    focused, nothing under the pointer. *)
Definition blank_page : Page :=
  {| entries := [{| entry_url := "about:blank"; entry_state := None |}];
     current := 0;
     activeElement := None;
     elementFromPoint := fun _ _ => None;
     pointer := None;
     rendering := [];
     page_closed := false |}.

(** [init_browser]: the four acquisitions in source order, then the first
    navigation.  An acquisition that succeeds returns an object, so each
    [is None] test of the source passes; one that raises leaves the handles
    acquired so far in [state]. *)
Definition init_browser : M unit :=
  _ ← outside_call PlaywrightStart;
  _ ← modify_state (set_playwright (Some {| pw_stopped := false |}));
  _ ← outside_call ChromiumLaunch;
  _ ← modify_state (set_browser (Some {| br_closed := false |}));
  _ ← outside_call (NewContext 1280 800);
  _ ← modify_state (set_context (Some {| ctx_closed := false |}));
  _ ← outside_call NewPage;
  _ ← modify_state (set_page (Some blank_page));
  _ ← page_call (Goto "about:blank" None);
  mret tt.

Definition startup_event : M unit := init_browser.

(** What a successful release does on the engine side.  Closing a context
    closes its pages; the handles in [state] stay where they are. *)
Definition released (c : Call) (s : web_appState) : web_appState :=
  match c with
  | ContextClose =>
      set_page (set_page_closed <$> page s)
        (set_context ((fun _ => {| ctx_closed := true |}) <$> context s) s)
  | BrowserClose =>
      set_browser ((fun _ => {| br_closed := true |}) <$> browser s) s
  | PlaywrightStop =>
      set_playwright ((fun _ => {| pw_stopped := true |}) <$> playwright s) s
  | _ => s
  end.

Definition release_call (c : Call) : M unit :=
  _ ← outside_call c;
  modify_state (released c).

(** [if h: await release] *)
Definition when_present {A} (h : web_appState -> option A) (m : M unit)
  : M unit :=
  s ← get_state;
  match h s with
  | Some _ => m
  | None => mret tt
  end.

Definition shutdown_event : M unit :=
  _ ← when_present context (release_call ContextClose);
  _ ← when_present browser (release_call BrowserClose);
  when_present playwright (release_call PlaywrightStop).

(** ** The connection registry *)

(** [state.active_connections.add(websocket)] *)
Definition register (ws : WebSocket) : M unit :=
  modify_state (fun s =>
    set_active_connections ({[ws]} ∪ active_connections s) s).

(** [state.active_connections.remove(websocket)]: [set.remove] raises
    [KeyError] when the element is absent. *)
Definition set_remove (ws : WebSocket) : M unit := fun w =>
  if bool_decide (ws ∈ active_connections (state w)) then
    (Ok tt,
     set_state (set_active_connections
                  (active_connections (state w) ∖ {[ws]}) (state w)) w)
  else (Raise (Exn KeyError "<WebSocket>"), w).

(** [if websocket in state.active_connections:
        state.active_connections.remove(websocket)] *)
Definition remove_if_present (ws : WebSocket) : M unit := fun w =>
  if bool_decide (ws ∈ active_connections (state w)) then set_remove ws w
  else (Ok tt, w).

(** ** The frame broadcaster *)

(** Where the coroutine [screenshot_loop] is: not yet started, suspended in
    one of its three [await]s, or finished. *)
Inductive LoopPc :=
| AtEntry
| AwaitScreenshot
| AwaitSend (frame : list byte)
| AwaitSleep
| Returned (r : result unit).

(** [asyncio.sleep(0.03)]; the literal denotes the binary64 number nearest
    to 0.03, in Python as here. *)
#[warnings="-inexact-float"] Definition sleep_interval : float := 0.03.

Definition screenshot_call : Call := Screenshot "jpeg" 70.

(** The [except Exception as e] clause of [screenshot_loop]. *)
Definition loop_except (ws : WebSocket) (e : exn) (w : World)
  : LoopPc * World :=
  let w1 := record_log ERROR ("Screenshot error: " +:+ str e) w in
  (Returned (Ok tt), snd (remove_if_present ws w1)).

(** The head of [while True]: the membership test, then the call of
    [state.page.screenshot] up to its suspension. *)
Definition loop_head (ws : WebSocket) (w : World) : LoopPc * World :=
  if bool_decide (ws ∈ active_connections (state w)) then
    match page (state w) with
    | Some _ => (AwaitScreenshot, record_call screenshot_call w)
    | None =>
        loop_except ws (Exn AttributeError "'NoneType' object has no attribute") w
    end
  else (Returned (Ok tt), w).

(** The frame a completed screenshot delivers. *)
Definition captured (w : World) : list byte :=
  match page (state w) with
  | Some p => rendering p
  | None => []
  end.

(** Run the coroutine from where it is to its next suspension point.  A
    pending call completes here: it raises what the oracle says, or
    succeeds and the code goes on to issue the next call. *)
Definition loop_step (ws : WebSocket) (pc : LoopPc) (w : World)
  : LoopPc * World :=
  match pc with
  | AtEntry =>
      match page (state w) with
      | None => (Returned (Raise (Exn RuntimeError "Page not initialized")), w)
      | Some _ => loop_head ws w
      end
  | AwaitScreenshot =>
      match raises w screenshot_call with
      | Some e => loop_except ws e w
      | None =>
          let screenshot := captured w in
          (AwaitSend screenshot, record_call (SendBytes ws screenshot) w)
      end
  | AwaitSend frame =>
      match raises w (SendBytes ws frame) with
      | Some e => loop_except ws e w
      | None => (AwaitSleep, record_call (Sleep sleep_interval) w)
      end
  | AwaitSleep =>
      match raises w (Sleep sleep_interval) with
      | Some e => loop_except ws e w
      | None => loop_head ws w
      end
  | Returned r => (Returned r, w)
  end.

(** What the other tasks of the event loop can do to the shared world while
    this coroutine is suspended: other viewers come and go, command handlers
    act on the page, the engine or a transport starts or stops failing. *)
Inductive EnvAction :=
| EnvRegister (ws : WebSocket)
| EnvUnregister (ws : WebSocket)
| EnvPage (f : Page -> Page)
| EnvRaises (r : Call -> option exn).

Definition env_act (a : EnvAction) (w : World) : World :=
  match a with
  | EnvRegister ws =>
      set_state (set_active_connections
                   ({[ws]} ∪ active_connections (state w)) (state w)) w
  | EnvUnregister ws =>
      set_state (set_active_connections
                   (active_connections (state w) ∖ {[ws]}) (state w)) w
  | EnvPage f => set_state (set_page (f <$> page (state w)) (state w)) w
  | EnvRaises r => set_raises r w
  end.

Definition env_burst (burst : list EnvAction) (w : World) : World :=
  foldl (fun w a => env_act a w) w burst.

(** An interleaving: the coroutine runs to its next suspension point, the
    other tasks act, and so on, once per element of the schedule. *)
Fixpoint run_loop (ws : WebSocket) (schedule : list (list EnvAction))
    (pc : LoopPc) (w : World) : LoopPc * World :=
  match schedule with
  | [] => (pc, w)
  | burst :: rest =>
      let '(pc', w') := loop_step ws pc w in
      run_loop ws rest pc' (env_burst burst w')
  end.

(** ** The streaming endpoint *)

Inductive HandlerPc :=
| AwaitAccept
| InLoop (pc : LoopPc)
| Finished (r : result unit).

(** The [except] clauses of [websocket_screenshot], tried in source order. *)
Definition handler_except (ws : WebSocket) (e : exn) (w : World)
  : HandlerPc * World :=
  match cls e with
  | WebSocketDisconnect =>
      let '(r, w') := set_remove ws w in (Finished r, w')
  | _ =>
      let w1 := record_log ERROR ("WebSocket error: " +:+ str e) w in
      let '(r, w') := remove_if_present ws w1 in (Finished r, w')
  end.

(** What [websocket_screenshot] does with the state its callee is in. *)
Definition after_loop (ws : WebSocket) (cfg : LoopPc * World)
  : HandlerPc * World :=
  match cfg with
  | (Returned (Ok _), w) => (Finished (Ok tt), w)
  | (Returned (Raise e), w) => handler_except ws e w
  | (pc, w) => (InLoop pc, w)
  end.

(** [websocket_screenshot] up to its first suspension, in [accept]. *)
Definition websocket_screenshot (ws : WebSocket) (w : World)
  : HandlerPc * World :=
  (AwaitAccept, record_call (Accept ws) w).

Definition handler_step (ws : WebSocket) (pc : HandlerPc) (w : World)
  : HandlerPc * World :=
  match pc with
  | AwaitAccept =>
      match raises w (Accept ws) with
      | Some e => (Finished (Raise e), w)
      | None =>
          let w1 := snd (register ws w) in
          after_loop ws (loop_step ws AtEntry w1)
      end
  | InLoop pc => after_loop ws (loop_step ws pc w)
  | Finished r => (Finished r, w)
  end.

Fixpoint run_handler (ws : WebSocket) (schedule : list (list EnvAction))
    (pc : HandlerPc) (w : World) : HandlerPc * World :=
  match schedule with
  | [] => (pc, w)
  | burst :: rest =>
      let '(pc', w') := handler_step ws pc w in
      run_handler ws rest pc' (env_burst burst w')
  end.

Close Scope float_scope.

(** * Vocabulary of the properties *)

(** ** Observing a run *)

(** The engine and the transports raise on no call. *)
Definition healthy (w : World) : Prop := ∀ c, raises w c = None.

(** The calls a run adds to the log. *)
Definition issued (before after : World) : list Call :=
  drop (length (calls before)) (calls after).

(** Where the pointer of the session's page is. *)
Definition pointer_of (w : World) : option (float * float) :=
  p ← page (state w); pointer p.

(** A normalised coordinate. *)
Definition in_unit_interval (v : float) : Prop :=
  PrimFloat.leb 0 v = true ∧ PrimFloat.leb v 1 = true.

(** Whether the focused element passes the test of [type_keys]. *)
Definition focused_input_like (p : Page) : bool :=
  match activeElement p with
  | Some e => input_like e
  | None => false
  end.

Definition is_key_press (c : Call) : bool :=
  match c with
  | KeyboardPress _ => true
  | _ => false
  end.

Definition key_presses (l : list Call) : nat :=
  length (List.filter is_key_press l).

Definition is_navigation (c : Call) : bool :=
  match c with
  | Goto _ _ | GoBack _ | GoForward _ => true
  | _ => false
  end.

Definition navigations (l : list Call) : nat :=
  length (List.filter is_navigation l).

Definition is_send_on (ws : WebSocket) (c : Call) : bool :=
  match c with
  | SendBytes ws' _ => bool_decide (ws' = ws)
  | _ => false
  end.

Definition sends_on (ws : WebSocket) (l : list Call) : nat :=
  length (List.filter (is_send_on ws) l).

(** ** Teardown *)

(** The release call that undoes an acquisition; a page has none of its
    own, it goes with its context. *)
Definition release_of (c : Call) : option Call :=
  match c with
  | PlaywrightStart => Some PlaywrightStop
  | ChromiumLaunch => Some BrowserClose
  | NewContext _ _ => Some ContextClose
  | _ => None
  end.

Definition due {A} (h : option A) (c : Call) : list Call :=
  match h with
  | Some _ => [c]
  | None => []
  end.

(** The release calls [shutdown_event] owes to a state: one for each
    handle that is set, context first. *)
Definition releases_due (s : web_appState) : list Call :=
  due (context s) ContextClose
  ++ due (browser s) BrowserClose
  ++ due (playwright s) PlaywrightStop.

(** Which of the engine, browser and context handles are set. *)
Definition handles_present (s : web_appState) : bool * bool * bool :=
  (bool_decide (is_Some (playwright s)),
   bool_decide (is_Some (browser s)),
   bool_decide (is_Some (context s))).

(** ** The broadcaster under interleaving *)

(** No other task puts [ws] back into the registry. *)
Definition never_registers (ws : WebSocket) (schedule : list (list EnvAction))
  : Prop :=
  Forall (Forall (λ a, a ≠ EnvRegister ws)) schedule.

(** The send a suspended loop has under way. *)
Definition sends_in_flight (pc : LoopPc) : nat :=
  match pc with
  | AwaitSend _ => 1
  | _ => 0
  end.

(** The sends a loop will still issue before its next membership test. *)
Definition sends_ahead (pc : LoopPc) : nat :=
  match pc with
  | AwaitScreenshot => 1
  | _ => 0
  end.

(** Resumptions until the next membership test, at most. *)
Definition steps_to_test (pc : LoopPc) : nat :=
  match pc with
  | AtEntry => 1
  | AwaitScreenshot => 3
  | AwaitSend _ => 2
  | AwaitSleep => 1
  | Returned _ => 0
  end.

(** One full turn of the loop, as the engine and the transport see it. *)
Definition round (ws : WebSocket) (frame : list byte) : list Call :=
  [screenshot_call; SendBytes ws frame; Sleep sleep_interval].






(** The only exception [screenshot_loop] lets out is the [RuntimeError] of
    its page guard: every other one is caught inside. *)
Definition loop_quiet (pc : LoopPc) : Prop :=
  match pc with
  | Returned (Raise e) => cls e = RuntimeError
  | _ => True
  end.

(** The states of the endpoint, past [accept], in which it has raised
    nothing. *)
Definition handler_calm (pc : HandlerPc) : Prop :=
  match pc with
  | AwaitAccept => False
  | InLoop AtEntry => False
  | InLoop (Returned (Raise _)) => False
  | InLoop _ => True
  | Finished r => r = Ok tt
  end.

(** * Sample sessions *)

Definition boot_world : World :=
  {| state := initial_state; raises := fun _ => None; calls := [];
     logged := [] |}.

(** The world once [startup_event] has run on a healthy engine. *)
Definition ready_world : World := (startup_event boot_world).2.

(** A healthy world whose session holds page [p] and nothing else. *)
Definition world_with_page (p : Page) : World :=
  {| state := set_page (Some p) initial_state; raises := fun _ => None;
     calls := []; logged := [] |}.

Definition text_input : Element :=
  {| tagName := "INPUT"; contentEditable := "inherit"; focusable := true |}.

Definition plain_div : Element :=
  {| tagName := "DIV"; contentEditable := "inherit"; focusable := false |}.

(** A session that went to a site and then back: two entries, the first
    one current, so a forward entry exists. *)
Definition back_on_first_world : World :=
  (go_back (goto_url {| url := "https://example.org/" |} ready_world).2).2.

(** An engine that cannot create a browser context. *)
Definition context_refused : Call → option exn := fun c =>
  match c with
  | NewContext _ _ => Some (Exn EngineError "Browser has been closed")
  | _ => None
  end.

(** A session whose initialisation stopped after the browser launch, the
    engine being well again since. *)
Definition half_started_world : World :=
  set_raises (fun _ => None)
    (startup_event (set_raises context_refused boot_world)).2.

(** An engine on which every release fails. *)
Definition rejects_release : Call → option exn := fun c =>
  match c with
  | ContextClose | BrowserClose | PlaywrightStop =>
      Some (Exn EngineError "Target closed")
  | _ => None
  end.

(** A viewer registered on a running session. *)
Definition streaming_world (ws : WebSocket) : World :=
  (register ws ready_world).2.

(** Two viewers, [ws] and 8, and transports on which every send fails with
    a disconnect. *)
Definition disconnected_world (ws : WebSocket) : World :=
  set_raises (λ c, match c with
                   | SendBytes _ _ => Some (Exn WebSocketDisconnect "")
                   | _ => None
                   end)
    ((register 8 (streaming_world ws)).2).

(** * The rest of the lifecycle and of the endpoints: vocabulary *)

(** [modal_app.py]: the container's [@modal.enter] and [@modal.exit] hooks
    await the two lifecycle coroutines of [main.py]. *)
Definition ModalApp_startup : M unit := startup_event.

Definition ModalApp_shutdown : M unit := shutdown_event.

(** The outside calls of [init_browser], in source order. *)
Definition acquisitions : list Call :=
  [PlaywrightStart; ChromiumLaunch; NewContext 1280 800; NewPage;
   Goto "about:blank" None].

(** The calls of [l] up to and including the first one that raises under
    the oracle [r], and what that one raises. *)
Fixpoint until_failure (r : Call → option exn) (l : list Call)
  : list Call * option exn :=
  match l with
  | [] => ([], None)
  | c :: l' =>
      match r c with
      | Some e => ([c], Some e)
      | None => let '(done, failure) := until_failure r l' in
                (c :: done, failure)
      end
  end.

(** How many calls of [l] succeed before the first failure. *)
Definition succeeded (r : Call → option exn) (l : list Call) : nat :=
  match (until_failure r l).2 with
  | Some _ => pred (length (until_failure r l).1)
  | None => length (until_failure r l).1
  end.

(** What a coroutine returns when its calls fail as [failure] says. *)
Definition outcome (failure : option exn) : result unit :=
  match failure with
  | Some e => Raise e
  | None => Ok tt
  end.

(** No handle of the engine side is set. *)
Definition unacquired (s : web_appState) : Prop :=
  playwright s = None ∧ browser s = None ∧ context s = None.

(** The engine is healthy again. *)
Definition recovered (w : World) : World := set_raises (fun _ => None) w.

(** An HTTP error is accounted for: its status is 500 and it is either the
    refusal of a session without page, nothing having been touched, or the
    text of the exception raised by the last call issued. *)
Definition error_explained (w : World) (out : http_result * World) : Prop :=
  match out.1 with
  | Response _ => True
  | HTTPException status_code detail =>
      status_code = 500%Z
      ∧ ((page (state w) = None ∧ detail = "Page not initialized" ∧ out.2 = w)
         ∨ ∃ c e, last (issued w out.2) = Some c
                  ∧ raises w c = Some e ∧ detail = str e)
  end.

(** An HTTP error of [click_coordinate] is accounted for: it is one of
    those, or it is the refusal of the handler's own [evaluate], the click
    having been issued, alone, without raising. *)
Definition click_error_explained (payload : ClickPayload) (w : World)
    (out : http_result * World) : Prop :=
  error_explained w out
  ∨ (out.1 = HTTPException 500 (str evaluate_arity_error)
     ∧ issued w out.2
       = [MouseClick (PrimFloat.mul (x payload) 1280)
            (PrimFloat.mul (y payload) 800)]
     ∧ raises w (MouseClick (PrimFloat.mul (x payload) 1280)
                   (PrimFloat.mul (y payload) 800)) = None).

(** A computation that, run on a session with a page, keeps the page set
    and the oracle as it is, only adds to the call log, and raises nothing
    but what its last call raised. *)
Definition call_bound {A} (m : M A) : Prop :=
  ∀ w, is_Some (page (state w)) →
    match m w with
    | (Ok _, w') =>
        raises w' = raises w ∧ is_Some (page (state w'))
        ∧ ∃ l, calls w' = calls w ++ l
    | (Raise e, w') =>
        ∃ l c, calls w' = calls w ++ l ++ [c] ∧ raises w c = Some e
    end.

(** The loop is suspended in one of its three [await]s. *)
Definition suspended (pc : LoopPc) : Prop :=
  match pc with
  | AwaitScreenshot | AwaitSend _ | AwaitSleep => True
  | AtEntry | Returned _ => False
  end.

(** No other task takes [ws] out of the registry. *)
Definition never_unregisters (ws : WebSocket)
    (schedule : list (list EnvAction)) : Prop :=
  Forall (Forall (λ a, a ≠ EnvUnregister ws)) schedule.

(** An action of another task that neither unregisters [ws] nor makes any
    call fail. *)
Definition leaves_alone (ws : WebSocket) (a : EnvAction) : Prop :=
  match a with
  | EnvUnregister ws' => ws' ≠ ws
  | EnvRaises _ => False
  | EnvRegister _ | EnvPage _ => True
  end.

(** The action is the arrival or the departure of a viewer other than
    [ws]. *)
Definition concerns_other (ws : WebSocket) (a : EnvAction) : bool :=
  match a with
  | EnvRegister ws' | EnvUnregister ws' => negb (bool_decide (ws' = ws))
  | EnvPage _ | EnvRaises _ => false
  end.

(** The schedule without the arrivals and departures of other viewers. *)
Definition without_others (ws : WebSocket) (schedule : list (list EnvAction))
  : list (list EnvAction) :=
  map (List.filter (λ a, negb (concerns_other ws a))) schedule.

(** Two worlds that a loop on [ws] cannot tell apart. *)
Definition alike (ws : WebSocket) (w w' : World) : Prop :=
  raises w = raises w'
  ∧ page (state w) = page (state w')
  ∧ calls w = calls w'
  ∧ (ws ∈ active_connections (state w)
     ↔ ws ∈ active_connections (state w')).

(** How the calls [l] a loop has issued count up when it is at [pc] and
    has never failed: three to a turn, one send in each. *)
Definition turn_count (ws : WebSocket) (pc : LoopPc) (l : list Call) : Prop :=
  match pc with
  | AtEntry => l = []
  | AwaitScreenshot => length l = 3 * sends_on ws l + 1
  | AwaitSend _ => length l + 1 = 3 * sends_on ws l
  | AwaitSleep => length l = 3 * sends_on ws l
  | Returned _ => False
  end.

(** A world in which the loop of [ws] has every reason to go on. *)
Definition serving (ws : WebSocket) (w : World) : Prop :=
  is_Some (page (state w))
  ∧ ws ∈ active_connections (state w)
  ∧ healthy w.

(** What a session holds besides its page: the registry and the three
    engine-side handles. *)
Definition session_frame (s : web_appState)
  : gset WebSocket * option Playwright * option Browser
    * option BrowserContext :=
  (active_connections s, playwright s, browser s, context s).

(** A computation that leaves all of that alone. *)
Definition keeps_session {A} (m : M A) : Prop :=
  ∀ w, session_frame (state (m w).2) = session_frame (state w).

(** [w'] is [w] after a step that has only read: same page, handles and
    oracle, a longer call log, and a registry that is the same or has lost
    [ws]. *)
Definition only_read (ws : WebSocket) (w w' : World) : Prop :=
  page (state w') = page (state w)
  ∧ (playwright (state w'), browser (state w'), context (state w'))
    = (playwright (state w), browser (state w), context (state w))
  ∧ raises w' = raises w
  ∧ calls w `prefix_of` calls w'
  ∧ (active_connections (state w') = active_connections (state w)
     ∨ active_connections (state w')
       = active_connections (state w) ∖ {[ws]}).

(** * Properties *)

(** ** The model at work *)

(** Startup on a healthy engine: four acquisitions, one navigation, a
    history of one entry. *)
Example startup_acquires_in_order :
  (startup_event boot_world).1 = Ok tt
  ∧ calls ready_world
    = [PlaywrightStart; ChromiumLaunch; NewContext 1280 800; NewPage;
       Goto "about:blank" None]
  ∧ history_length <$> page (state ready_world) = Some 1.
Proof. repeat split. Qed.

(** Startup on an engine that refuses the context: the error comes out
    and the engine and browser handles stay set. *)
Example startup_stops_at_first_failure :
  (startup_event (set_raises context_refused boot_world)).1
  = Raise (Exn EngineError "Browser has been closed")
  ∧ handles_present (state half_started_world) = (true, true, false)
  ∧ page (state half_started_world) = None.
Proof. repeat split. Qed.

(** Before startup every command is refused. *)
Example commands_need_a_page :
  (go_back boot_world).1 = HTTPException 500 "Page not initialized".
Proof. reflexivity. Qed.

(** Seven resumptions of an undisturbed loop: two full turns and the
    capture of the third. *)
Example two_turns_and_a_capture :
  run_loop 7 [[]; []; []; []; []; []; []] AtEntry (streaming_world 7)
  = (AwaitScreenshot,
     {| state := state (streaming_world 7);
        raises := raises (streaming_world 7);
        calls := calls (streaming_world 7)
                 ++ round 7 [] ++ round 7 [] ++ [screenshot_call];
        logged := [] |}).
Proof. reflexivity. Qed.

(** A viewer whose transport hangs up: the disconnect is caught inside
    [screenshot_loop], which logs it, unregisters the viewer and returns;
    the endpoint finishes normally. *)
Example disconnect_ends_the_endpoint :
  (run_handler 7 [[]; []; []] AwaitAccept
     (set_raises (raises (disconnected_world 7)) ready_world)).1
  = Finished (Ok tt)
  ∧ logged (run_handler 7 [[]; []; []] AwaitAccept
              (set_raises (raises (disconnected_world 7)) ready_world)).2
    = [(ERROR, "Screenshot error: ")]
  ∧ 7 ∉ active_connections
          (state (run_handler 7 [[]; []; []] AwaitAccept
                    (set_raises (raises (disconnected_world 7))
                       ready_world)).2).
Proof.
  split; [reflexivity|]. split; [reflexivity|].
  apply not_elem_of_difference. right. apply elem_of_singleton. reflexivity.
Qed.

(** ** Input translation *)

(** *** Binary64 products

    The pixel coordinates are products of binary64 numbers, rounded to
    nearest even.  What follows reads the rounding off its specification
    ([SpecFloat]) far enough to tell on which side of [0] and of the
    viewport's edge a product falls. *)

Open Scope Z_scope.

Lemma iter_pos_nat {A} (f : A → A) (n : positive) (a : A) :
  SpecFloat.iter_pos f n a = Nat.iter (Pos.to_nat n) f a.
Proof.
  revert a. induction n as [n IH|n IH|]; intro a; cbn [SpecFloat.iter_pos].
  - rewrite !IH, Pos2Nat.inj_xI, <- Nat.iter_add.
    replace (2 * Pos.to_nat n)%nat with (Pos.to_nat n + Pos.to_nat n)%nat by lia.
    now rewrite <- Nat.iter_succ_r.
  - rewrite !IH, Pos2Nat.inj_xO, <- Nat.iter_add.
    now replace (2 * Pos.to_nat n)%nat with (Pos.to_nat n + Pos.to_nat n)%nat by lia.
  - reflexivity.
Qed.

(** Shifting a mantissa right by one place halves it. *)
Lemma shr_1_m (r : shr_record) :
  0 ≤ shr_m r → shr_m (shr_1 r) = shr_m r / 2.
Proof.
  destruct r as [m b s]. cbn [shr_m]. intros Hm.
  rewrite <- Z.div2_div.
  destruct m as [|[p|p|]|p]; try reflexivity. lia.
Qed.

Lemma shr_iter_m (k : nat) (r : shr_record) :
  0 ≤ shr_m r → shr_m (Nat.iter k shr_1 r) = shr_m r / 2 ^ Z.of_nat k.
Proof.
  intros Hm. induction k as [|k IH].
  - cbn. now rewrite Z.div_1_r.
  - rewrite Nat.iter_succ, shr_1_m, IH.
    + rewrite Nat2Z.inj_succ, Z.pow_succ_r by lia.
      rewrite Z.div_div by lia. f_equal. lia.
    + rewrite IH. apply Z.div_pos; lia.
Qed.

(** The number of binary digits of a mantissa. *)
Lemma digits2_log2 (p : positive) :
  Zpos (digits2_pos p) = Z.log2 (Zpos p) + 1.
Proof.
  assert (H : ∀ q, digits2_pos q = Pos.size q).
  { induction q; cbn; congruence. }
  rewrite H. destruct p; cbn; lia.
Qed.

Lemma digits2_bounds (p : positive) :
  2 ^ (Zpos (digits2_pos p) - 1) ≤ Zpos p < 2 ^ Zpos (digits2_pos p).
Proof.
  rewrite digits2_log2.
  replace (Z.log2 (Zpos p) + 1 - 1) with (Z.log2 (Zpos p)) by lia.
  pose proof (Z.log2_spec (Zpos p) ltac:(lia)) as H.
  replace (Z.log2 (Zpos p) + 1) with (Z.succ (Z.log2 (Zpos p))) by lia.
  exact H.
Qed.

Lemma digits2_le (p : positive) (k : Z) :
  Zpos p < 2 ^ k → Zpos (digits2_pos p) ≤ k.
Proof.
  intros H. rewrite digits2_log2.
  destruct (Z.le_gt_cases k 0) as [Hk|Hk].
  - assert (2 ^ k ≤ 1).
    { destruct (Z.eq_dec k 0) as [->|]; [cbn; lia|].
      rewrite Z.pow_neg_r; lia. }
    lia.
  - apply Z.log2_lt_pow2 in H; lia.
Qed.

Lemma digits2_ge (p : positive) (k : Z) :
  0 ≤ k → 2 ^ k ≤ Zpos p → k + 1 ≤ Zpos (digits2_pos p).
Proof.
  intros Hk H. rewrite digits2_log2.
  apply Z.log2_le_pow2 in H; lia.
Qed.

Lemma round_nearest_even_bounds (a : Z) (l : location) :
  a ≤ round_nearest_even a l ≤ a + 1.
Proof.
  unfold round_nearest_even.
  destruct l as [|[| |]]; try lia.
  destruct (Z.even a); lia.
Qed.

Lemma fexp_binary64 (z : Z) : fexp prec emax z = Z.max (z - 53) (-1074).
Proof. reflexivity. Qed.

(** What [shr_fexp] does to a mantissa: it drops [n] low bits, [n] being
    the distance from the exponent to the one the format asks for. *)
Lemma shr_fexp_spec (m : positive) (E : Z) (l : location) :
  let n := Z.max (Zpos (digits2_pos m) + E - 53) (-1074) - E in
  shr_fexp prec emax (Zpos m) E l =
    (fst (shr_fexp prec emax (Zpos m) E l),
     if 0 <? n then E + n else E) ∧
  shr_m (fst (shr_fexp prec emax (Zpos m) E l)) =
    if 0 <? n then Zpos m / 2 ^ n else Zpos m.
Proof.
  intros n. unfold shr_fexp. rewrite fexp_binary64.
  cbn [Zdigits2]. fold n. unfold shr.
  destruct n as [|p|p] eqn:Hn.
  - split; [reflexivity|]. cbn [fst]. now destruct l as [|[| |]].
  - replace (0 <? Z.pos p) with true by (symmetry; apply Z.ltb_lt; lia).
    split; [reflexivity|]. cbn [fst].
    rewrite iter_pos_nat, shr_iter_m, positive_nat_Z.
    + now destruct l as [|[| |]].
    + destruct l as [|[| |]]; cbn; lia.
  - split; [reflexivity|]. cbn [fst]. now destruct l as [|[| |]].
Qed.

(** Rounding an exact product [M * 2^E] that has bits to lose: the result
    is an infinity or a finite number, never zero; its exponent is at least
    the one the format asks for, and at that exponent its mantissa is at
    least the truncated one. *)
Lemma binary_round_aux_lower (s : bool) (M : positive) (E : Z) :
  let d := Zpos (digits2_pos M) in
  let e1 := Z.max (d + E - 53) (-1074) in
  E < e1 → e1 - E < d →
  binary_round_aux prec emax s (Zpos M) E loc_Exact = S754_infinity s ∨
  ∃ m'' e'',
    binary_round_aux prec emax s (Zpos M) E loc_Exact = S754_finite s m'' e'' ∧
    (e1 < e'' ∨ (e'' = e1 ∧ Zpos M / 2 ^ (e1 - E) ≤ Zpos m'')).
Proof.
  intros d e1 Hlt Hd.
  unfold binary_round_aux.
  destruct (shr_fexp_spec M E loc_Exact) as [H1 H1m].
  fold d in H1, H1m. fold e1 in H1, H1m.
  replace (0 <? e1 - E) with true in H1, H1m
    by (symmetry; apply Z.ltb_lt; lia).
  rewrite H1. set (r1 := fst (shr_fexp prec emax (Zpos M) E loc_Exact)) in *.
  replace (E + (e1 - E)) with e1 by lia.
  pose proof (round_nearest_even_bounds (shr_m r1) (loc_of_shr_record r1)) as Hr.
  pose proof (digits2_bounds M) as HM. fold d in HM.
  assert (Ha1 : 1 ≤ shr_m r1).
  { rewrite H1m. apply Z.div_le_lower_bound; [lia|].
    rewrite Z.mul_1_r.
    transitivity (2 ^ (d - 1)); [|lia].
    apply Z.pow_le_mono_r; lia. }
  assert (Ha2 : shr_m r1 < 2 ^ 53).
  { rewrite H1m. apply Z.div_lt_upper_bound; [lia|].
    rewrite <- Z.pow_add_r by lia.
    eapply Z.lt_le_trans; [apply HM|].
    apply Z.pow_le_mono_r; lia. }
  destruct (round_nearest_even (shr_m r1) (loc_of_shr_record r1))
    as [|q|q] eqn:Hq; [lia| |lia].
  destruct (shr_fexp_spec q e1 loc_Exact) as [H2 H2m].
  rewrite H2. set (r2 := fst (shr_fexp prec emax (Zpos q) e1 loc_Exact)) in *.
  assert (He1 : -1074 ≤ e1) by (unfold e1; lia).
  assert (Hdq : Zpos (digits2_pos q) ≤ 54).
  { apply digits2_le. change (2 ^ 54) with (2 * 2 ^ 53). lia. }
  destruct (Z.le_gt_cases (Zpos (digits2_pos q)) 53) as [Hle|Hgt].
  - replace (0 <? Z.max (Zpos (digits2_pos q) + e1 - 53) (-1074) - e1)
      with false in H2m |- * by (symmetry; apply Z.ltb_ge; lia).
    rewrite H2m.
    destruct (e1 <=? emax - prec); [|now left].
    right. exists q, e1. split; [reflexivity|]. right. split; [reflexivity|].
    rewrite <- H1m. lia.
  - replace (Z.max (Zpos (digits2_pos q) + e1 - 53) (-1074) - e1)
      with 1 in H2m |- * by lia.
    cbn [Z.ltb Z.compare] in H2m |- *.
    rewrite H2m.
    pose proof (digits2_bounds q) as Hqb.
    assert (Hq53 : 2 ^ 53 ≤ Zpos q).
    { etransitivity; [|apply Hqb]. apply Z.pow_le_mono_r; lia. }
    assert (Hhalf : 2 ^ 52 ≤ Zpos q / 2 ^ 1).
    { apply Z.div_le_lower_bound; [lia|].
      change (2 ^ 1 * 2 ^ 52) with (2 ^ 53). lia. }
    destruct (Zpos q / 2 ^ 1) as [|h|h] eqn:Hh; [lia| |lia].
    destruct (e1 + 1 <=? emax - prec); [|now left].
    right. exists h, (e1 + 1). split; [reflexivity|]. left. lia.
Qed.

(** A finite binary64 value is in canonical form. *)
Lemma valid_finite (s : bool) (m : positive) (e : Z) :
  valid_binary (S754_finite s m e) = true →
  -1074 ≤ e ∧ e = Z.max (Zpos (digits2_pos m) + e - 53) (-1074).
Proof.
  cbn [SpecFloat.valid_binary]. unfold bounded, canonical_mantissa.
  rewrite fexp_binary64. intros H.
  apply andb_prop in H as [H _]. apply Z.eqb_eq in H. lia.
Qed.

Close Scope Z_scope.

Open Scope float_scope.

(** A factor [c = mc * 2^ec] with a full mantissa and an exponent between
    -52 and -1, such as 1280 and 800: multiplying by it keeps a number
    below [0] below [0], and takes a number above [1] above [c]. *)
Section Scaling.
Variables (c : float) (mc : positive) (ec : Z).
Hypothesis Hc : Prim2SF c = S754_finite false mc ec.
Hypothesis Hmc : (2 ^ 52 ≤ Zpos mc < 2 ^ 53)%Z.
Hypothesis Hec : (-52 ≤ ec < 0)%Z.

Lemma scaled_digits (m : positive) :
  (Zpos (digits2_pos m) + 52 ≤ Zpos (digits2_pos (m * mc))
   ≤ Zpos (digits2_pos m) + 53)%Z.
Proof using Hmc.
  pose proof (digits2_bounds m) as Hm.
  split.
  - replace (Zpos (digits2_pos m) + 52)%Z
      with (Zpos (digits2_pos m) - 1 + 52 + 1)%Z by lia.
    apply digits2_ge; [lia|].
    rewrite Z.pow_add_r by lia. rewrite Pos2Z.inj_mul.
    apply Z.mul_le_mono_nonneg; lia.
  - apply digits2_le. rewrite Z.pow_add_r by lia. rewrite Pos2Z.inj_mul.
    apply Z.mul_lt_mono_nonneg; lia.
Qed.

Lemma scaled_below_zero (v : float) :
  (v <? 0) = true → (v * c <? 0) = true.
Proof using Hc Hmc Hec.
  rewrite !ltb_spec, mul_spec, Hc.
  pose proof (Prim2SF_valid v) as Hv.
  change (Prim2SF 0) with (S754_zero false).
  destruct (Prim2SF v) as [s|s| |s m e];
    [destruct s; discriminate| |discriminate|].
  - destruct s; [reflexivity|discriminate].
  - destruct s; [|discriminate]. intros _.
    apply valid_finite in Hv as [He Hcan].
    pose proof (scaled_digits m) as Hd.
    unfold SF64mul, SFmul. cbn [xorb].
    destruct (binary_round_aux_lower true (m * mc) (e + ec))
      as [->|(m'' & e'' & -> & _)]; try reflexivity; lia.
Qed.

Lemma scaled_above_one (v : float) :
  (1 <? v) = true → (c <? v * c) = true.
Proof using Hc Hmc Hec.
  rewrite !ltb_spec, mul_spec, Hc.
  pose proof (Prim2SF_valid v) as Hv.
  change (Prim2SF 1) with (S754_finite false 4503599627370496 (-52)).
  destruct (Prim2SF v) as [s|s| |s m e];
    [destruct s; discriminate| |discriminate|].
  - destruct s; [discriminate|reflexivity].
  - destruct s; [discriminate|]. intros Hone.
    apply valid_finite in Hv as [He Hcan].
    pose proof (scaled_digits m) as Hd.
    pose proof (digits2_bounds m) as Hm.
    assert (Hbig : (-52 < e ∨ (e = -52 ∧ 2 ^ 52 < Zpos m < 2 ^ 53))%Z).
    { unfold SFltb, SFcompare in Hone.
      destruct (Z.compare_spec (-52) e) as [Heq|Hl|Hg].
      - right. split; [lia|].
        change (Pos.compare_cont Eq 4503599627370496 m)
          with (Pos.compare 4503599627370496 m) in Hone.
        destruct (Pos.compare_spec 4503599627370496 m) as [?|Hp|?];
          try discriminate.
        assert (Zpos (digits2_pos m) = 53%Z) as Hdm by lia.
        rewrite Hdm in Hm. change (2 ^ 52)%Z with 4503599627370496%Z.
        lia.
      - left. lia.
      - discriminate. }
    unfold SF64mul, SFmul. cbn [xorb].
    assert (Hdm : (Zpos (digits2_pos m) = 53)%Z) by lia.
    destruct (binary_round_aux_lower false (m * mc) (e + ec))
      as [->|(m'' & e'' & -> & Hres)]; try reflexivity; try lia.
    unfold SFltb, SFcompare.
    destruct (Z.compare_spec ec e'') as [Heq|Hl|Hg]; try reflexivity.
    + change (Pos.compare_cont Eq mc m'') with (Pos.compare mc m'').
      destruct (Pos.compare_spec mc m'') as [Hp|Hp|Hp];
        try reflexivity; exfalso.
      all: destruct Hres as [Hres|[Hres1 Hres2]]; [lia|].
      all: destruct Hbig as [Hbig|[Hbig1 Hbig2]]; [lia|].
      all: assert (Hsh : (Z.max (Zpos (digits2_pos (m * mc)) + (e + ec) - 53)
                            (-1074) - (e + ec) = 52)%Z) by lia.
      all: rewrite Hsh in Hres2.
      all: assert (Hq : (Zpos mc + 1 ≤ Zpos (m * mc) / 2 ^ 52)%Z)
             by (apply Z.div_le_lower_bound; [lia|];
                 rewrite Pos2Z.inj_mul; nia).
      all: subst; lia.
    + exfalso. destruct Hres as [Hres|[Hres1 Hres2]]; lia.
Qed.
End Scaling.

(** Coordinates outside the unit interval give pixels outside the viewport:
    for every binary64 number, a negative one is scaled to a negative pixel
    coordinate, and one above 1 to a coordinate beyond the width 1280, or
    the height 800. *)
Lemma beyond_the_viewport (v : float) :
  ((v <? 0) = true →
   (v * 1280 <? 0) = true ∧ (v * 800 <? 0) = true)
  ∧ ((1 <? v) = true →
     (1280 <? v * 1280) = true ∧ (800 <? v * 800) = true).
Proof.
  split; intros H; split.
  - apply (scaled_below_zero 1280 5629499534213120 (-42));
      [reflexivity|lia|lia|exact H].
  - apply (scaled_below_zero 800 7036874417766400 (-43));
      [reflexivity|lia|lia|exact H].
  - apply (scaled_above_one 1280 5629499534213120 (-42));
      [reflexivity|lia|lia|exact H].
  - apply (scaled_above_one 800 7036874417766400 (-43));
      [reflexivity|lia|lia|exact H].
Qed.

(** *** The handlers *)

(** A page call on an initialised page that does not raise. *)
Lemma page_call_ok (c : Call) (w : World) (p : Page) :
  page (state w) = Some p →
  raises w c = None →
  page_call c w =
    (Ok (engine c p).2,
     set_state (set_page (Some (engine c p).1) (state w)) (record_call c w)).
Proof.
  intros Hp Hr. unfold page_call. rewrite Hp, Hr.
  destruct (engine c p) as [p' v]. reflexivity.
Qed.

Lemma hover_coordinate_run (payload : ClickPayload) (w : World) (p : Page) :
  page (state w) = Some p →
  healthy w →
  let px := (x payload * 1280)%float in
  let py := (y payload * 800)%float in
  hover_coordinate payload w =
    (Response [("success", VBool true)],
     set_state (set_page (Some (set_pointer px py p)) (state w))
       (record_call (MouseMove px py) w)).
Proof.
  intros Hp Hh px py. unfold hover_coordinate, command. rewrite Hp.
  unfold mbind, M_bind.
  rewrite (page_call_ok _ _ p Hp (Hh _)). reflexivity.
Qed.

Lemma issued_app (w w' : World) (l : list Call) :
  calls w' = calls w ++ l → issued w w' = l.
Proof. intros H. unfold issued. rewrite H. apply drop_app_length. Qed.

(** [click_coordinate] when the click itself goes through: the pointer is at
    the target, the malformed [evaluate] is refused, and the handler answers
    500 with the text of that [TypeError]. *)
Lemma click_coordinate_run (payload : ClickPayload) (w : World) (p : Page) :
  page (state w) = Some p →
  raises w (MouseClick (x payload * 1280) (y payload * 800)) = None →
  click_coordinate payload w =
    (HTTPException 500 (str evaluate_arity_error),
     set_state
       (set_page
          (Some (set_pointer (x payload * 1280) (y payload * 800) p))
          (state w))
       (record_call (MouseClick (x payload * 1280) (y payload * 800)) w)).
Proof.
  intros Hp Hr. unfold click_coordinate, command. rewrite Hp.
  unfold mbind, M_bind. rewrite (page_call_ok _ _ p Hp Hr).
  reflexivity.
Qed.

(** C2: for normalised coordinates in the unit square, [hover_coordinate]
    moves the pointer to exactly [(x * 1280, y * 800)] and
    [click_coordinate] clicks at exactly that pixel, the products being the
    binary64 products Python computes; the centre [(0.5, 0.5)] is pixel
    [(640, 400)].  (Nothing else reaches the page from a click: the focus
    probe that follows is refused before it is sent.) *)
Theorem pixel_target_in_unit_square (payload : ClickPayload) (w : World)
    (p : Page) :
  page (state w) = Some p →
  healthy w →
  in_unit_interval (x payload) →
  in_unit_interval (y payload) →
  (issued w (hover_coordinate payload w).2
     = [MouseMove (x payload * 1280) (y payload * 800)]
   ∧ pointer_of (hover_coordinate payload w).2
     = Some (x payload * 1280, y payload * 800))
  ∧ (issued w (click_coordinate payload w).2
     = [MouseClick (x payload * 1280) (y payload * 800)]
     ∧ pointer_of (click_coordinate payload w).2
       = Some (x payload * 1280, y payload * 800))
  ∧ (issued w (click_coordinate {| x := 0.5; y := 0.5 |} w).2
     = [MouseClick 640 400]
     ∧ pointer_of (click_coordinate {| x := 0.5; y := 0.5 |} w).2
       = Some (640, 400)).
Proof.
  intros Hp Hh _ _. split; [|split].
  - rewrite (hover_coordinate_run payload w p Hp Hh). cbn [snd].
    split; [|reflexivity]. apply issued_app. reflexivity.
  - rewrite (click_coordinate_run payload w p Hp (Hh _)).
    cbn [snd]. split; [|reflexivity]. apply issued_app. reflexivity.
  - rewrite (click_coordinate_run {| x := 0.5; y := 0.5 |} w p Hp (Hh _)).
    cbn [snd]. split; [|reflexivity]. apply issued_app. reflexivity.
Qed.

(** On the running session, hovering at (0.25, 0.75) moves the pointer to
    pixel (320, 600), and clicking there clicks at that pixel. *)
Lemma pixel_target_in_unit_square_witness :
  issued ready_world
    (hover_coordinate {| x := 0.25; y := 0.75 |} ready_world).2
  = [MouseMove 320 600]
  ∧ issued ready_world
      (click_coordinate {| x := 0.25; y := 0.75 |} ready_world).2
    = [MouseClick 320 600].
Proof.
  pose proof (pixel_target_in_unit_square {| x := 0.25; y := 0.75 |}
                ready_world blank_page eq_refl (λ c, eq_refl)) as H.
  refine (let H' := H _ _ in
          conj (proj1 (proj1 H')) (proj1 (proj1 (proj2 H')))).
  - split; reflexivity.
  - split; reflexivity.
Defined.

(** C10: the coordinates are not validated.  For every pair of binary64
    numbers, in the unit square or not, [hover_coordinate] answers success
    and moves the pointer to [(x * 1280, y * 800)], and [click_coordinate]
    clicks at that pixel: no test of the range, no clamping.  Coordinates
    below 0 or above 1 therefore give pixels outside the 1280 x 800
    viewport.  What [click_coordinate] answers after the click is the same
    for every payload, the 500 of its refused [evaluate]: it is no verdict
    on the coordinates. *)
Theorem pixel_target_unvalidated (payload : ClickPayload) (w : World)
    (p : Page) :
  page (state w) = Some p →
  healthy w →
  ((hover_coordinate payload w).1 = Response [("success", VBool true)]
   ∧ issued w (hover_coordinate payload w).2
     = [MouseMove (x payload * 1280) (y payload * 800)]
   ∧ pointer_of (hover_coordinate payload w).2
     = Some (x payload * 1280, y payload * 800))
  ∧ (issued w (click_coordinate payload w).2
     = [MouseClick (x payload * 1280) (y payload * 800)]
     ∧ pointer_of (click_coordinate payload w).2
       = Some (x payload * 1280, y payload * 800)
     ∧ (click_coordinate payload w).1
       = HTTPException 500 (str evaluate_arity_error)
     ∧ (click_coordinate payload w).1
       = (click_coordinate {| x := 0.5; y := 0.5 |} w).1)
  ∧ (((x payload <? 0) = true → (x payload * 1280 <? 0) = true)
     ∧ ((1 <? x payload) = true → (1280 <? x payload * 1280) = true)
     ∧ ((y payload <? 0) = true → (y payload * 800 <? 0) = true)
     ∧ ((1 <? y payload) = true → (800 <? y payload * 800) = true)).
Proof.
  intros Hp Hh. split; [|split].
  - rewrite (hover_coordinate_run payload w p Hp Hh). cbn [fst snd].
    split; [reflexivity|]. split; [|reflexivity].
    apply issued_app. reflexivity.
  - rewrite (click_coordinate_run payload w p Hp (Hh _)).
    rewrite (click_coordinate_run {| x := 0.5; y := 0.5 |} w p Hp (Hh _)).
    cbn [fst snd]. split; [apply issued_app; reflexivity|].
    repeat split.
  - destruct (beyond_the_viewport (x payload)) as [Hx0 Hx1].
    destruct (beyond_the_viewport (y payload)) as [Hy0 Hy1].
    repeat split; intros H.
    + apply (proj1 (Hx0 H)).
    + apply (proj1 (Hx1 H)).
    + apply (proj2 (Hy0 H)).
    + apply (proj2 (Hy1 H)).
Qed.

(** On the running session, the payload (1.5, -0.25) is taken as it is:
    hover and click act at pixel (1920, -200), right of and above the
    viewport. *)
Lemma pixel_target_unvalidated_witness :
  issued ready_world
    (hover_coordinate {| x := 1.5; y := -0.25 |} ready_world).2
  = [MouseMove 1920 (-200)]
  ∧ issued ready_world
      (click_coordinate {| x := 1.5; y := -0.25 |} ready_world).2
    = [MouseClick 1920 (-200)].
Proof.
  pose proof (pixel_target_unvalidated {| x := 1.5; y := -0.25 |}
                ready_world blank_page eq_refl (λ c, eq_refl)) as H.
  exact (conj (proj1 (proj2 (proj1 H))) (proj1 (proj1 (proj2 H)))).
Defined.

Close Scope float_scope.

(** ** Keyboard and navigation guards *)

Lemma focus_probe (p : Page) :
  (run_script HasFocusedInput [] p).1 = p
  ∧ truthy (run_script HasFocusedInput [] p).2 = focused_input_like p.
Proof.
  unfold focused_input_like. cbn. destruct (activeElement p); split; reflexivity.
Qed.

Lemma set_page_same (w w' : World) (p : Page) :
  state w' = state w →
  page (state w) = Some p →
  set_state (set_page (Some p) (state w)) w' = w'.
Proof.
  intros Hs Hp. destruct w' as [s' r c l]. cbn in Hs. subst s'.
  destruct (state w). cbn in *. subst. reflexivity.
Qed.

(** C3: with a focused element that is not input-like (or none at all),
    [type_keys] answers [success: False] with its message, raises nothing
    and presses no key; with an input-like element focused it issues exactly
    one key press, that of the payload's key. *)
Theorem type_keys_guard (payload : KeyboardPayload) (w : World) (p : Page) :
  page (state w) = Some p →
  raises w (Evaluate HasFocusedInput []) = None →
  (focused_input_like p = false →
     (type_keys payload w).1
     = Response [("success", VBool false);
                 ("error", VStr "No input element is focused")]
     ∧ issued w (type_keys payload w).2 = [Evaluate HasFocusedInput []]
     ∧ key_presses (issued w (type_keys payload w).2) = 0%nat
     ∧ page (state (type_keys payload w).2) = Some p)
  ∧ (focused_input_like p = true →
     issued w (type_keys payload w).2
     = [Evaluate HasFocusedInput []; KeyboardPress (key payload)]
     ∧ key_presses (issued w (type_keys payload w).2) = 1%nat
     ∧ (raises w (KeyboardPress (key payload)) = None →
        (type_keys payload w).1 = Response [("success", VBool true)])).
Proof.
  intros Hp Hr.
  destruct (focus_probe p) as [Hsame Htruthy].
  assert (Hrun : ∀ b, focused_input_like p = b →
    type_keys payload w =
      let w1 := record_log INFO
                  ("Focused element: "
                   +:+ format_value (run_script HasFocusedInput [] p).2)
                  (record_call (Evaluate HasFocusedInput []) w) in
      if b then
        match page_call (KeyboardPress (key payload)) w1 with
        | (Ok _, w') => (Response [("success", VBool true)], w')
        | (Raise e, w') => (HTTPException 500 (str e), w')
        end
      else
        (Response [("success", VBool false);
                   ("error", VStr "No input element is focused")], w1)).
  { intros b Hb. unfold type_keys, command. rewrite Hp.
    unfold mbind, M_bind. rewrite (page_call_ok _ _ p Hp Hr).
    cbn [engine]. rewrite Hsame.
    rewrite (set_page_same w (record_call (Evaluate HasFocusedInput []) w) p
               eq_refl Hp).
    unfold logging. rewrite Htruthy, Hb.
    destruct b; cbn [negb]; [|reflexivity].
    destruct (page_call _ _) as [[v|e] w']; reflexivity. }
  split; intros Hf; rewrite (Hrun _ Hf); cbn zeta.
  - cbn [fst snd]. assert (Hi : issued w
      (record_log INFO
         ("Focused element: "
          +:+ format_value (run_script HasFocusedInput [] p).2)
         (record_call (Evaluate HasFocusedInput []) w))
      = [Evaluate HasFocusedInput []]) by (apply issued_app; reflexivity).
    rewrite Hi. repeat split; try reflexivity. exact Hp.
  - set (w1 := record_log _ _ _).
    assert (Hp1 : page (state w1) = Some p) by exact Hp.
    assert (Hcalls : calls (match page_call (KeyboardPress (key payload)) w1 with
                            | (Ok _, w') =>
                                (Response [("success", VBool true)], w')
                            | (Raise e, w') => (HTTPException 500 (str e), w')
                            end).2
                     = calls w ++ [Evaluate HasFocusedInput [];
                                   KeyboardPress (key payload)]).
    { unfold page_call. rewrite Hp1.
      destruct (raises w1 _); cbn; rewrite <- app_assoc; reflexivity. }
    rewrite (issued_app _ _ _ Hcalls). repeat split.
    intros Hk. rewrite (page_call_ok _ _ p Hp1 Hk). reflexivity.
Qed.

(** A focused [div] gets the soft failure; a focused text input gets one
    key press. *)
Lemma type_keys_guard_witness :
  ((type_keys {| key := "a" |}
      (world_with_page (set_activeElement (Some plain_div) blank_page))).1
   = Response [("success", VBool false);
               ("error", VStr "No input element is focused")])
  ∧ key_presses
      (issued (world_with_page (set_activeElement (Some text_input) blank_page))
         (type_keys {| key := "a" |}
            (world_with_page
               (set_activeElement (Some text_input) blank_page))).2)
    = 1%nat.
Proof.
  split.
  - refine (proj1 (proj1
      (type_keys_guard {| key := "a" |}
         (world_with_page (set_activeElement (Some plain_div) blank_page))
         (set_activeElement (Some plain_div) blank_page) _ _) _));
      reflexivity.
  - refine (proj1 (proj2 (proj2
      (type_keys_guard {| key := "a" |}
         (world_with_page (set_activeElement (Some text_input) blank_page))
         (set_activeElement (Some text_input) blank_page) _ _) _)));
      reflexivity.
Defined.

(** C4: [go_back] on a page whose history has at most one entry answers
    [success: False] with "No previous page in history", issues no
    navigation and leaves the page as it is; with more than one entry it
    issues [go_back(wait_until='networkidle')] and, if that does not raise,
    answers success with the page one entry back. *)
Theorem go_back_guard (w : World) (p : Page) :
  page (state w) = Some p →
  raises w (Evaluate HistoryLengthGt1 []) = None →
  (history_length p ≤ 1 →
     (go_back w).1
     = Response [("success", VBool false);
                 ("error", VStr "No previous page in history")]
     ∧ issued w (go_back w).2 = [Evaluate HistoryLengthGt1 []]
     ∧ navigations (issued w (go_back w).2) = 0%nat
     ∧ page (state (go_back w).2) = Some p)
  ∧ (1 < history_length p →
     issued w (go_back w).2
     = [Evaluate HistoryLengthGt1 []; GoBack "networkidle"]
     ∧ (raises w (GoBack "networkidle") = None →
        (go_back w).1 = Response [("success", VBool true)]
        ∧ page (state (go_back w).2) = Some (history_back p))).
Proof.
  intros Hp Hr.
  set (w1 := record_call (Evaluate HistoryLengthGt1 []) w).
  assert (Hp1 : page (state w1) = Some p) by exact Hp.
  assert (Hrun : go_back w =
    if bool_decide (1 < history_length p) then
      match page_call (GoBack "networkidle") w1 with
      | (Ok _, w') => (Response [("success", VBool true)], w')
      | (Raise e, w') => (HTTPException 500 (str e), w')
      end
    else
      (Response [("success", VBool false);
                 ("error", VStr "No previous page in history")], w1)).
  { unfold go_back, command. rewrite Hp. unfold mbind, M_bind.
    rewrite (page_call_ok _ _ p Hp Hr). cbn [engine run_script fst snd truthy].
    rewrite (set_page_same w (record_call (Evaluate HistoryLengthGt1 []) w) p
               eq_refl Hp).
    fold w1.
    destruct (bool_decide (1 < history_length p)); cbn [negb]; [|reflexivity].
    destruct (page_call _ _) as [[v|e] w']; reflexivity. }
  rewrite Hrun. split; intros Hlen.
  - rewrite bool_decide_eq_false_2 by lia. cbn [fst snd].
    assert (Hi : issued w w1 = [Evaluate HistoryLengthGt1 []])
      by (apply issued_app; reflexivity).
    rewrite Hi. repeat split; try reflexivity. exact Hp.
  - rewrite bool_decide_eq_true_2 by lia. split.
    + apply issued_app. unfold page_call. rewrite Hp1.
      destruct (raises w1 _); cbn; rewrite <- app_assoc; reflexivity.
    + intros Hk. rewrite (page_call_ok _ _ p Hp1 Hk). split; reflexivity.
Qed.

(** Right after startup the history has one entry: [go_back] declines and
    navigates nowhere. *)
Lemma go_back_guard_witness :
  (go_back ready_world).1
  = Response [("success", VBool false);
              ("error", VStr "No previous page in history")]
  ∧ navigations (issued ready_world (go_back ready_world).2) = 0%nat.
Proof.
  pose proof (proj1 (go_back_guard ready_world blank_page eq_refl eq_refl))
    as H.
  refine (let H' := H _ in conj (proj1 H') (proj1 (proj2 (proj2 H')))).
  cbn. lia.
Defined.

(** *** The forward probe *)

(** The probe of [go_forward] leaves the history alone exactly when there is
    no forward entry to move to. *)
Lemma forward_probe_effect (p : Page) :
  nav_state (run_script ForwardProbe [] p).1 =
    if has_forward_entry p then (entries p, S (current p)) else nav_state p.
Proof.
  cbn [run_script fst]. unfold history_forward.
  destruct (has_forward_entry p); reflexivity.
Qed.

Lemma forward_probe_pure_iff (p : Page) :
  nav_state (run_script ForwardProbe [] p).1 = nav_state p
  ↔ has_forward_entry p = false.
Proof.
  rewrite forward_probe_effect. unfold nav_state.
  destruct (has_forward_entry p); split; intros H; try done.
  inversion H. lia.
Qed.

(** Without a forward entry [go_forward] is the soft failure and the page is
    untouched. *)
Lemma go_forward_at_end (w : World) (p : Page) :
  page (state w) = Some p →
  raises w (Evaluate ForwardProbe []) = None →
  has_forward_entry p = false →
  go_forward w =
    (Response [("success", VBool false);
               ("error", VStr "No next page in history")],
     record_call (Evaluate ForwardProbe []) w).
Proof.
  intros Hp Hr Hf. unfold go_forward, command. rewrite Hp.
  unfold mbind, M_bind. rewrite (page_call_ok _ _ p Hp Hr).
  cbn [engine run_script fst snd]. unfold history_forward. rewrite Hf.
  rewrite (set_page_same w (record_call (Evaluate ForwardProbe []) w) p
             eq_refl Hp).
  rewrite bool_decide_eq_true_2 by reflexivity. reflexivity.
Qed.

(** C1 (the code departs from it): on a session with a forward entry the
    availability probe of [go_forward] itself moves the history forward.
    Here the handler answers "No next page in history", issues no
    [go_forward] call, and yet the current entry has changed from the first
    to the second. *)
Theorem go_forward_probe_moves_history :
  nav_state <$> page (state back_on_first_world)
  = Some ([{| entry_url := "about:blank"; entry_state := None |};
           {| entry_url := "https://example.org/"; entry_state := None |}],
          0%nat)
  ∧ (go_forward back_on_first_world).1
    = Response [("success", VBool false);
                ("error", VStr "No next page in history")]
  ∧ issued back_on_first_world (go_forward back_on_first_world).2
    = [Evaluate ForwardProbe []]
  ∧ nav_state <$> page (state (go_forward back_on_first_world).2)
    = Some ([{| entry_url := "about:blank"; entry_state := None |};
             {| entry_url := "https://example.org/"; entry_state := None |}],
            1%nat).
Proof. repeat split. Qed.

(** ** Teardown *)

Lemma shutdown_event_run (w : World) :
  healthy w →
  (shutdown_event w).1 = Ok tt
  ∧ calls (shutdown_event w).2 = calls w ++ releases_due (state w)
  ∧ handles_present (state (shutdown_event w).2) = handles_present (state w)
  ∧ raises (shutdown_event w).2 = raises w.
Proof.
  intros Hh. destruct w as [s r c l].
  assert (Hr : ∀ k, r k = None) by exact Hh.
  unfold shutdown_event, when_present, release_call, outside_call,
    modify_state, get_state, mbind, M_bind, mret, M_ret, releases_due.
  destruct s as [pw br cx pg ac].
  destruct cx, br, pw; cbn; rewrite ?Hr; cbn; rewrite ?Hr; cbn;
    rewrite ?Hr; cbn; rewrite <- ?app_assoc, ?app_nil_r; done.
Qed.

Lemma releases_due_handles (s s' : web_appState) :
  handles_present s = handles_present s' → releases_due s = releases_due s'.
Proof.
  unfold handles_present, releases_due. intros H.
  destruct (playwright s), (browser s), (context s),
    (playwright s'), (browser s'), (context s');
    cbn in H; try reflexivity; inversion H;
    repeat match goal with
    | H : bool_decide _ = bool_decide _ |- _ =>
        first [ rewrite bool_decide_eq_true_2 in H by eauto
              | rewrite bool_decide_eq_false_2 in H by (intros [? ?]; done) ]
    end; discriminate.
Qed.

(** A release acts on the engine side only; done again it changes nothing:
    a second teardown on a working engine leaves the session as the first
    left it. *)
Lemma shutdown_event_again (w : World) :
  healthy w →
  state (shutdown_event (shutdown_event w).2).2 = state (shutdown_event w).2.
Proof.
  intros Hh. destruct w as [s r c l].
  assert (Hr : ∀ k, r k = None) by exact Hh.
  unfold shutdown_event, when_present, release_call, outside_call,
    modify_state, get_state, mbind, M_bind, mret, M_ret.
  destruct s as [pw br cx pg ac].
  destruct cx, br, pw, pg; cbn; rewrite ?Hr; cbn; rewrite ?Hr; cbn;
    rewrite ?Hr; cbn; rewrite ?Hr; cbn; rewrite ?Hr; cbn; rewrite ?Hr;
    reflexivity.
Qed.

(** C8: on an engine that does not fault, [shutdown_event] returns normally
    having issued exactly the release of each handle that is set, in the
    order context, browser, engine, and none for an absent handle, whatever
    part of the session was initialised; for a fully initialised session
    that is the reverse of the acquisition order, and the page is closed
    with its context.  Calling it again is safe: the second call returns
    normally too and leaves the session exactly as the first call left it
    (the handles stay set, so it asks again for the same releases, which
    change nothing). *)
Theorem shutdown_event_safe_and_idempotent (w : World) :
  healthy w →
  ((shutdown_event w).1 = Ok tt
   ∧ issued w (shutdown_event w).2 = releases_due (state w)
   ∧ handles_present (state (shutdown_event w).2) = handles_present (state w))
  ∧ ((shutdown_event (shutdown_event w).2).1 = Ok tt
     ∧ state (shutdown_event (shutdown_event w).2).2
       = state (shutdown_event w).2
     ∧ issued (shutdown_event w).2 (shutdown_event (shutdown_event w).2).2
       = releases_due (state w))
  ∧ (releases_due (state ready_world)
     = omap release_of (reverse (calls ready_world))
     ∧ page_closed <$> page (state (shutdown_event ready_world).2) = Some true
     ∧ ctx_closed <$> context (state (shutdown_event ready_world).2)
       = Some true
     ∧ br_closed <$> browser (state (shutdown_event ready_world).2)
       = Some true
     ∧ pw_stopped <$> playwright (state (shutdown_event ready_world).2)
       = Some true).
Proof.
  intros Hh. split; [|split; [|repeat split]].
  - destruct (shutdown_event_run w Hh) as (Hres & Hcalls & Hhandles & _).
    split; [exact Hres|]. split; [|exact Hhandles].
    apply issued_app, Hcalls.
  - destruct (shutdown_event_run w Hh) as (_ & _ & Hhandles & Hraises).
    assert (Hh' : healthy (shutdown_event w).2).
    { intros c. rewrite Hraises. apply Hh. }
    destruct (shutdown_event_run _ Hh') as (Hres' & Hcalls' & _ & _).
    split; [exact Hres'|]. split; [apply shutdown_event_again, Hh|].
    apply issued_app. rewrite Hcalls'. f_equal.
    apply releases_due_handles, Hhandles.
Qed.

(** A session that got as far as the browser: teardown closes the browser
    and stops the engine, does not touch the context it never had, and can
    be called again. *)
Lemma shutdown_event_safe_and_idempotent_witness :
  (shutdown_event half_started_world).1 = Ok tt
  ∧ issued half_started_world (shutdown_event half_started_world).2
    = [BrowserClose; PlaywrightStop]
  ∧ (shutdown_event (shutdown_event half_started_world).2).1 = Ok tt.
Proof.
  pose proof (shutdown_event_safe_and_idempotent half_started_world
                (λ c, eq_refl)) as H.
  exact (conj (proj1 (proj1 H))
           (conj (proj1 (proj2 (proj1 H))) (proj1 (proj1 (proj2 H))))).
Defined.

(** ** The connection registry *)

Lemma difference_absent (a : gset WebSocket) (ws : WebSocket) :
  ws ∉ a → a ∖ {[ws]} = a.
Proof. intros H. apply difference_disjoint_L, disjoint_singleton_r, H. Qed.

Lemma difference_gone (a : gset WebSocket) (ws : WebSocket) :
  ws ∉ a ∖ {[ws]}.
Proof.
  rewrite elem_of_difference. intros [_ H]. apply H, elem_of_singleton.
  reflexivity.
Qed.

Lemma difference_other (a : gset WebSocket) (ws ws' : WebSocket) :
  ws' ≠ ws → ws' ∈ a ∖ {[ws]} ↔ ws' ∈ a.
Proof.
  intros Hne. rewrite elem_of_difference, elem_of_singleton. tauto.
Qed.

Lemma union_other (a : gset WebSocket) (ws ws' : WebSocket) :
  ws' ≠ ws → ws ∉ a → ws ∉ {[ws']} ∪ a.
Proof.
  intros Hne Ha. rewrite elem_of_union, elem_of_singleton.
  intros [-> | H]; [apply Hne; reflexivity | apply Ha, H].
Qed.

Lemma difference_stays_absent (a : gset WebSocket) (ws ws' : WebSocket) :
  ws ∉ a → ws ∉ a ∖ {[ws']}.
Proof. intros Ha. rewrite elem_of_difference. intros [H _]. apply Ha, H. Qed.

Lemma set_remove_absent (ws : WebSocket) (w : World) :
  ws ∉ active_connections (state w) →
  set_remove ws w = (Raise (Exn KeyError "<WebSocket>"), w).
Proof.
  intros H. unfold set_remove. rewrite bool_decide_eq_false_2 by exact H.
  reflexivity.
Qed.

Lemma remove_if_present_run (ws : WebSocket) (w : World) :
  remove_if_present ws w =
    (Ok tt,
     set_state (set_active_connections
                  (active_connections (state w) ∖ {[ws]}) (state w)) w).
Proof.
  unfold remove_if_present, set_remove.
  destruct (bool_decide (ws ∈ active_connections (state w))) eqn:Hin;
    [reflexivity|].
  apply bool_decide_eq_false in Hin. f_equal.
  rewrite (difference_absent _ _ Hin).
  destruct w as [s r c l]. destruct s. reflexivity.
Qed.

Lemma remove_if_present_absent (ws : WebSocket) (w : World) :
  ws ∉ active_connections (state w) → remove_if_present ws w = (Ok tt, w).
Proof.
  intros H. unfold remove_if_present.
  rewrite bool_decide_eq_false_2 by exact H. reflexivity.
Qed.

Lemma remove_if_present_gone (ws : WebSocket) (w : World) :
  ws ∉ active_connections (state (remove_if_present ws w).2).
Proof. rewrite remove_if_present_run. apply difference_gone. Qed.

(** ** The frame broadcaster *)

Lemma env_act_calls (a : EnvAction) (w : World) :
  calls (env_act a w) = calls w.
Proof. destruct a; reflexivity. Qed.

Lemma env_burst_calls (burst : list EnvAction) (w : World) :
  calls (env_burst burst w) = calls w.
Proof.
  revert w. induction burst as [|a burst IH]; intros w; [reflexivity|].
  change (calls (env_burst burst (env_act a w)) = calls w).
  rewrite IH. apply env_act_calls.
Qed.

Lemma env_burst_absent (ws : WebSocket) (burst : list EnvAction) (w : World) :
  Forall (λ a, a ≠ EnvRegister ws) burst →
  ws ∉ active_connections (state w) →
  ws ∉ active_connections (state (env_burst burst w)).
Proof.
  intros Hb. revert w. induction Hb as [|a burst Ha _ IH]; intros w Hw;
    [exact Hw|].
  change (ws ∉ active_connections (state (env_burst burst (env_act a w)))).
  apply IH. destruct a as [ws'| ws' | f | r]; cbn; try exact Hw.
  - apply union_other; [congruence | exact Hw].
  - apply difference_stays_absent, Hw.
Qed.

Lemma loop_except_run (ws : WebSocket) (e : exn) (w : World) :
  loop_except ws e w =
    (Returned (Ok tt),
     set_state (set_active_connections
                  (active_connections (state w) ∖ {[ws]}) (state w))
       (record_log ERROR ("Screenshot error: " +:+ str e) w)).
Proof. unfold loop_except. rewrite remove_if_present_run. reflexivity. Qed.

(** One resumption of a loop whose connection is not registered. *)
Lemma loop_step_unregistered (ws : WebSocket) (pc : LoopPc) (w : World) :
  ws ∉ active_connections (state w) →
  ∃ l, calls (loop_step ws pc w).2 = calls w ++ l
       ∧ sends_on ws l + sends_ahead (loop_step ws pc w).1 ≤ sends_ahead pc
       ∧ steps_to_test (loop_step ws pc w).1 ≤ pred (steps_to_test pc)
       ∧ ws ∉ active_connections (state (loop_step ws pc w).2).
Proof.
  intros Hw.
  assert (Hhead : loop_head ws w = (Returned (Ok tt), w)).
  { unfold loop_head. rewrite bool_decide_eq_false_2 by exact Hw. reflexivity. }
  assert (Hexc : ∀ e, ∃ l, calls (loop_except ws e w).2 = calls w ++ l
       ∧ sends_on ws l + sends_ahead (loop_except ws e w).1 ≤ 0
       ∧ steps_to_test (loop_except ws e w).1 ≤ 0
       ∧ ws ∉ active_connections (state (loop_except ws e w).2)).
  { intros e. exists []. rewrite loop_except_run. cbn.
    rewrite app_nil_r. repeat split; try lia. apply difference_gone. }
  destruct pc as [| | frame | | r]; cbn [loop_step].
  - destruct (page (state w)); [rewrite Hhead|]; exists [];
      cbn; rewrite app_nil_r; repeat split; try lia; exact Hw.
  - destruct (raises w screenshot_call) as [e|].
    + destruct (Hexc e) as (l & ? & ? & ? & ?). exists l. cbn in *.
      repeat split; try assumption; lia.
    + exists [SendBytes ws (captured w)]. cbn.
      rewrite bool_decide_eq_true_2 by reflexivity. cbn.
      repeat split; try lia. exact Hw.
  - destruct (raises w (SendBytes ws frame)) as [e|].
    + destruct (Hexc e) as (l & ? & ? & ? & ?). exists l. cbn in *.
      repeat split; try assumption; lia.
    + exists [Sleep sleep_interval]. cbn. repeat split; try lia. exact Hw.
  - destruct (raises w (Sleep sleep_interval)) as [e|].
    + destruct (Hexc e) as (l & ? & ? & ? & ?). exists l. cbn in *.
      repeat split; try assumption; lia.
    + rewrite Hhead. exists []. cbn. rewrite app_nil_r.
      repeat split; try lia. exact Hw.
  - exists []. cbn. rewrite app_nil_r. repeat split; try lia. exact Hw.
Qed.

Lemma sends_on_app (ws : WebSocket) (l1 l2 : list Call) :
  sends_on ws (l1 ++ l2) = sends_on ws l1 + sends_on ws l2.
Proof. unfold sends_on. rewrite List.filter_app, length_app. reflexivity. Qed.

Lemma run_loop_unregistered (ws : WebSocket) (schedule : list (list EnvAction)) :
  never_registers ws schedule →
  ∀ (pc : LoopPc) (w : World),
    ws ∉ active_connections (state w) →
    ∃ l, calls (run_loop ws schedule pc w).2 = calls w ++ l
         ∧ sends_on ws l + sends_ahead (run_loop ws schedule pc w).1
           ≤ sends_ahead pc
         ∧ steps_to_test (run_loop ws schedule pc w).1
           ≤ steps_to_test pc - length schedule.
Proof.
  intros Hs. induction Hs as [|burst rest Hb _ IH]; intros pc w Hw.
  - exists []. cbn. rewrite app_nil_r. repeat split; lia.
  - cbn [run_loop].
    destruct (loop_step_unregistered ws pc w Hw) as (l1 & Hc1 & Hs1 & Ht1 & Hw1).
    destruct (loop_step ws pc w) as [pc1 w1]. cbn [fst snd] in *.
    destruct (IH pc1 (env_burst burst w1)
                (env_burst_absent ws burst w1 Hb Hw1)) as (l2 & Hc2 & Hs2 & Ht2).
    exists (l1 ++ l2). rewrite Hc2, env_burst_calls, Hc1, app_assoc.
    split; [reflexivity|]. rewrite sends_on_app. cbn [length]. split; lia.
Qed.

(** C5: once the connection is out of the registry, and nobody puts it
    back, the loop is bounded: whatever the other tasks and the engine do,
    the sends that complete from then on (the one under way, or the one that
    follows a capture under way) number at most one, and after three
    resumptions at most the loop has met its membership test and returned.
    That test is the only thing that decides whether the loop goes round
    again: absent, it breaks; present, it captures the next frame. *)
Theorem unregistered_loop_stops (ws : WebSocket)
    (schedule : list (list EnvAction)) (pc : LoopPc) (w : World) :
  ws ∉ active_connections (state w) →
  never_registers ws schedule →
  (sends_on ws (issued w (run_loop ws schedule pc w).2) + sends_in_flight pc
   ≤ 1
   ∧ (3 ≤ length schedule → ∃ r, (run_loop ws schedule pc w).1 = Returned r))
  ∧ loop_head ws w = (Returned (Ok tt), w)
  ∧ (∀ (w' : World) (p : Page),
       page (state w') = Some p →
       loop_head ws w' =
         if bool_decide (ws ∈ active_connections (state w'))
         then (AwaitScreenshot, record_call screenshot_call w')
         else (Returned (Ok tt), w')).
Proof.
  intros Hw Hs. split; [|split].
  - destruct (run_loop_unregistered ws schedule Hs pc w Hw)
      as (l & Hc & Hsends & Hsteps).
    rewrite (issued_app _ _ _ Hc). split.
    + destruct pc; cbn in *; lia.
    + intros Hlen.
      destruct (run_loop ws schedule pc w).1 as [| | f | | r] eqn:E;
        try (destruct pc; cbn in Hsteps; lia).
      exists r. reflexivity.
  - unfold loop_head. rewrite bool_decide_eq_false_2 by exact Hw. reflexivity.
  - intros w' p Hp. unfold loop_head. rewrite Hp. reflexivity.
Qed.

(** Viewer 7 is unregistered while its capture is under way and viewer 8
    arrives meanwhile: one more send at most. *)
Lemma unregistered_loop_stops_witness :
  sends_on 7
    (issued (env_act (EnvUnregister 7) (streaming_world 7))
       (run_loop 7 [[]; [EnvRegister 8]; []] AwaitScreenshot
          (env_act (EnvUnregister 7) (streaming_world 7))).2)
  + sends_in_flight AwaitScreenshot ≤ 1.
Proof.
  refine (proj1 (proj1
    (unregistered_loop_stops 7 [[]; [EnvRegister 8]; []] AwaitScreenshot
       (env_act (EnvUnregister 7) (streaming_world 7)) _ _))).
  - apply difference_gone.
  - repeat constructor. discriminate.
Defined.

Lemma run_loop_returned (ws : WebSocket) (schedule : list (list EnvAction))
    (r : result unit) (w : World) :
  (run_loop ws schedule (Returned r) w).1 = Returned r
  ∧ calls (run_loop ws schedule (Returned r) w).2 = calls w.
Proof.
  revert w. induction schedule as [|burst rest IH]; intros w; [done|].
  cbn [run_loop loop_step]. destruct (IH (env_burst burst w)) as [-> ->].
  rewrite env_burst_calls. done.
Qed.

(** What decides the next step of a loop: the oracle, whether a page is
    set, and the membership of its own connection. *)
Lemma loop_step_pc_stable (ws : WebSocket) (pc : LoopPc) (w w' : World) :
  raises w' = raises w →
  page (state w') = page (state w) →
  calls w' = calls w →
  (ws ∈ active_connections (state w') ↔ ws ∈ active_connections (state w)) →
  (loop_step ws pc w').1 = (loop_step ws pc w).1
  ∧ calls (loop_step ws pc w').2 = calls (loop_step ws pc w).2.
Proof.
  intros Hr Hp Hc Hm.
  assert (Hb : bool_decide (ws ∈ active_connections (state w'))
               = bool_decide (ws ∈ active_connections (state w)))
    by (apply bool_decide_ext, Hm).
  assert (Hcap : captured w' = captured w)
    by (unfold captured; rewrite Hp; reflexivity).
  assert (Hhead : (loop_head ws w').1 = (loop_head ws w).1
                  ∧ calls (loop_head ws w').2 = calls (loop_head ws w).2).
  { unfold loop_head. rewrite Hb, Hp.
    destruct (bool_decide (ws ∈ active_connections (state w))); [|cbn; auto].
    destruct (page (state w)); [cbn; rewrite Hc; done|].
    rewrite !loop_except_run. cbn. auto. }
  destruct pc as [| | frame | | r]; cbn [loop_step]; rewrite ?Hr, ?Hp, ?Hcap.
  - destruct (page (state w)); [exact Hhead | cbn; auto].
  - destruct (raises w screenshot_call);
      [rewrite !loop_except_run | cbn; rewrite Hc]; cbn; auto.
  - destruct (raises w (SendBytes ws frame));
      [rewrite !loop_except_run | cbn; rewrite Hc]; cbn; auto.
  - destruct (raises w (Sleep sleep_interval));
      [rewrite !loop_except_run; cbn; auto | exact Hhead].
  - cbn; auto.
Qed.

(** C6: an exception out of the capture or the send ends that loop, and
    that loop only: its connection leaves the registry, the loop has
    returned and issues no call ever after, while every other connection
    keeps its membership and every other loop takes the very step it would
    have taken. *)
Theorem loop_failure_is_local (ws : WebSocket) (pc : LoopPc) (w : World)
    (e : exn) :
  (pc = AwaitScreenshot ∧ raises w screenshot_call = Some e)
  ∨ (∃ frame, pc = AwaitSend frame ∧ raises w (SendBytes ws frame) = Some e) →
  (loop_step ws pc w).1 = Returned (Ok tt)
  ∧ active_connections (state (loop_step ws pc w).2)
    = active_connections (state w) ∖ {[ws]}
  ∧ calls (loop_step ws pc w).2 = calls w
  ∧ (∀ schedule,
       (run_loop ws schedule (loop_step ws pc w).1 (loop_step ws pc w).2).1
       = Returned (Ok tt)
       ∧ issued w
           (run_loop ws schedule (loop_step ws pc w).1 (loop_step ws pc w).2).2
         = [])
  ∧ (∀ ws', ws' ≠ ws →
       (ws' ∈ active_connections (state (loop_step ws pc w).2)
        ↔ ws' ∈ active_connections (state w))
       ∧ ∀ pc', (loop_step ws' pc' (loop_step ws pc w).2).1
                = (loop_step ws' pc' w).1
                ∧ calls (loop_step ws' pc' (loop_step ws pc w).2).2
                  = calls (loop_step ws' pc' w).2).
Proof.
  intros Hfail.
  assert (Hstep : loop_step ws pc w = loop_except ws e w).
  { destruct Hfail as [[-> Hr] | (frame & -> & Hr)]; cbn [loop_step];
      rewrite Hr; reflexivity. }
  rewrite Hstep, loop_except_run. cbn [fst snd].
  split; [reflexivity|]. split; [reflexivity|]. split; [reflexivity|]. split.
  - intros schedule.
    destruct (run_loop_returned ws schedule (Ok tt)
                (set_state (set_active_connections
                   (active_connections (state w) ∖ {[ws]}) (state w))
                   (record_log ERROR ("Screenshot error: " +:+ str e) w)))
      as [Hpc Hcalls].
    split; [exact Hpc|]. apply issued_app. rewrite Hcalls, app_nil_r.
    reflexivity.
  - intros ws' Hne.
    assert (Hm : ws' ∈ active_connections (state w) ∖ {[ws]}
                 ↔ ws' ∈ active_connections (state w))
      by (apply difference_other, Hne).
    split; [exact Hm|]. intros pc'.
    apply loop_step_pc_stable; try reflexivity. exact Hm.
Qed.

(** The send to viewer 7 fails with a disconnect: its loop returns and 7
    alone leaves the registry. *)
Lemma loop_failure_is_local_witness :
  (loop_step 7 (AwaitSend []) (disconnected_world 7)).1 = Returned (Ok tt)
  ∧ active_connections (state (loop_step 7 (AwaitSend [])
                                 (disconnected_world 7)).2)
    = active_connections (state (disconnected_world 7)) ∖ {[7]}.
Proof.
  pose proof (loop_failure_is_local 7 (AwaitSend []) (disconnected_world 7)
                (Exn WebSocketDisconnect "")
                (or_intror (ex_intro _ [] (conj eq_refl eq_refl)))) as H.
  exact (conj (proj1 H) (proj1 (proj2 H))).
Defined.

(** *** Cadence *)





(** Tasks that leave the viewer alone leave it served. *)
Lemma env_burst_serving (ws : WebSocket) (burst : list EnvAction) (w : World) :
  Forall (leaves_alone ws) burst →
  serving ws w → serving ws (env_burst burst w).
Proof.
  intros Hb. revert w. induction Hb as [|a burst Ha _ IH]; intros w Hw;
    [exact Hw|].
  change (serving ws (env_burst burst (env_act a w))).
  apply IH. destruct Hw as ([p Hp] & Hin & Hh).
  destruct a as [ws'| ws' | f | r]; cbn in Ha.
  - repeat split; cbn; eauto. apply elem_of_union_r, Hin.
  - repeat split; cbn; eauto. apply elem_of_difference.
    split; [exact Hin|]. rewrite elem_of_singleton. congruence.
  - split; [|split]; cbn; [|exact Hin | exact Hh].
    rewrite Hp. cbn. eauto.
  - destruct Ha.
Qed.

(** While the viewer is served, every resumption issues one call. *)
Lemma loop_step_serving (ws : WebSocket) (pc : LoopPc) (w : World)
    (before l : list Call) :
  serving ws w →
  calls w = before ++ l →
  turn_count ws pc l →
  ∃ c, calls (loop_step ws pc w).2 = before ++ l ++ [c]
       ∧ turn_count ws (loop_step ws pc w).1 (l ++ [c])
       ∧ serving ws (loop_step ws pc w).2.
Proof.
  intros Hw Hc Hcount. pose proof Hw as ([p Hp] & Hin & Hh).
  assert (Hhead : l = [] ∨ length l = 3 * sends_on ws l →
    ∃ c, calls (loop_head ws w).2 = before ++ l ++ [c]
         ∧ turn_count ws (loop_head ws w).1 (l ++ [c])
         ∧ serving ws (loop_head ws w).2).
  { intros Hl. unfold loop_head.
    rewrite bool_decide_eq_true_2 by exact Hin. rewrite Hp.
    exists screenshot_call. cbn [fst snd]. split; [|split; [|exact Hw]].
    - cbn. rewrite Hc, <- app_assoc. reflexivity.
    - cbn. rewrite length_app, sends_on_app. cbn.
      destruct Hl as [-> | Hl]; [reflexivity | lia]. }
  destruct pc as [| | frame | | r]; cbn [loop_step]; cbn in Hcount.
  - rewrite Hp. apply Hhead. auto.
  - rewrite (Hh screenshot_call). exists (SendBytes ws (captured w)).
    cbn [fst snd]. split; [|split; [|exact Hw]].
    + cbn. rewrite Hc, <- app_assoc. reflexivity.
    + cbn. rewrite length_app, sends_on_app. cbn.
      rewrite bool_decide_eq_true_2 by reflexivity. cbn. lia.
  - rewrite (Hh (SendBytes ws frame)). exists (Sleep sleep_interval).
    cbn [fst snd]. split; [|split; [|exact Hw]].
    + cbn. rewrite Hc, <- app_assoc. reflexivity.
    + cbn. rewrite length_app, sends_on_app. cbn. lia.
  - rewrite (Hh (Sleep sleep_interval)). apply Hhead. auto.
  - destruct Hcount.
Qed.

Lemma run_loop_serving (ws : WebSocket) (schedule : list (list EnvAction))
    (before : list Call) :
  Forall (Forall (leaves_alone ws)) schedule →
  ∀ (pc : LoopPc) (w : World) (l : list Call),
    serving ws w →
    calls w = before ++ l →
    turn_count ws pc l →
    ∃ l', calls (run_loop ws schedule pc w).2 = before ++ l'
          ∧ length l' = length l + length schedule
          ∧ turn_count ws (run_loop ws schedule pc w).1 l'.
Proof.
  intros Hs. induction Hs as [|burst rest Hb _ IH]; intros pc w l Hw Hc Hcount.
  - exists l. cbn. auto.
  - cbn [run_loop].
    destruct (loop_step_serving ws pc w before l Hw Hc Hcount)
      as (c & Hc1 & Hcount1 & Hw1).
    destruct (loop_step ws pc w) as [pc1 w1]. cbn [fst snd] in *.
    destruct (IH pc1 (env_burst burst w1) (l ++ [c])) as (l' & Hc' & Hlen' & Hcount').
    + apply env_burst_serving; assumption.
    + rewrite env_burst_calls. exact Hc1.
    + exact Hcount1.
    + exists l'. split; [exact Hc'|]. split; [|exact Hcount'].
      rewrite Hlen', length_app. cbn. lia.
Qed.





(** ** The streaming endpoint never takes the bare removal *)

Lemma loop_step_raises (ws : WebSocket) (pc : LoopPc) (w : World) (e : exn) :
  (loop_step ws pc w).1 = Returned (Raise e) →
  (pc = AtEntry ∧ e = Exn RuntimeError "Page not initialized")
  ∨ pc = Returned (Raise e).
Proof.
  assert (Hhead : (loop_head ws w).1 ≠ Returned (Raise e)).
  { unfold loop_head. destruct (bool_decide _); [|done].
    destruct (page (state w)); [done|]. rewrite loop_except_run. done. }
  destruct pc as [| | frame | | r]; cbn [loop_step].
  - destruct (page (state w)); [done|]. cbn. intros [= <-]. auto.
  - destruct (raises w screenshot_call);
      [rewrite loop_except_run|]; done.
  - destruct (raises w (SendBytes ws frame));
      [rewrite loop_except_run|]; done.
  - destruct (raises w (Sleep sleep_interval));
      [rewrite loop_except_run|]; done.
  - cbn. intros [= ->]. auto.
Qed.

Lemma after_loop_calm (ws : WebSocket) (pc : LoopPc) (w : World) :
  pc = AtEntry ∨ handler_calm (InLoop pc) →
  handler_calm (after_loop ws (loop_step ws pc w)).1.
Proof.
  intros Hpc.
  destruct (loop_step ws pc w) as [pc' w'] eqn:Hstep.
  destruct pc' as [| | frame | | [[]|e]]; cbn; try done.
  - (* the loop cannot come back to its entry *)
    exfalso. revert Hstep. unfold loop_step, loop_head.
    rewrite ?loop_except_run.
    destruct pc as [| | f | | r]; repeat case_match;
      rewrite ?loop_except_run; done.
  - assert (H : (loop_step ws pc w).1 = Returned (Raise e))
      by (rewrite Hstep; reflexivity).
    destruct (loop_step_raises ws pc w e H) as [[-> ->] | ->].
    + unfold handler_except. cbn.
      rewrite remove_if_present_run. reflexivity.
    + destruct Hpc as [|[]]; done.
Qed.

Lemma run_handler_calm (ws : WebSocket) (schedule : list (list EnvAction)) :
  ∀ (pc : HandlerPc) (w : World),
    handler_calm pc → handler_calm (run_handler ws schedule pc w).1.
Proof.
  induction schedule as [|burst rest IH]; intros pc w Hpc; [exact Hpc|].
  cbn [run_handler].
  destruct (handler_step ws pc w) as [pc1 w1] eqn:Hstep.
  apply IH. destruct pc as [|lp|r]; cbn in Hstep.
  - destruct Hpc.
  - pose proof (after_loop_calm ws lp w (or_intror Hpc)) as H.
    rewrite Hstep in H. exact H.
  - injection Hstep as <- <-. exact Hpc.
Qed.

Lemma run_loop_quiet (ws : WebSocket) (schedule : list (list EnvAction)) :
  ∀ (pc : LoopPc) (w : World),
    loop_quiet pc → loop_quiet (run_loop ws schedule pc w).1.
Proof.
  induction schedule as [|burst rest IH]; intros pc w Hpc; [exact Hpc|].
  cbn [run_loop]. destruct (loop_step ws pc w) as [pc1 w1] eqn:Hstep.
  apply IH. destruct pc1 as [| | frame | | [u|e]]; cbn; try done.
  assert (H : (loop_step ws pc w).1 = Returned (Raise e))
    by (rewrite Hstep; reflexivity).
  destruct (loop_step_raises ws pc w e H) as [[_ ->] | ->];
    [reflexivity | exact Hpc].
Qed.

Lemma run_handler_finished (ws : WebSocket) (schedule : list (list EnvAction))
    (r : result unit) (w : World) :
  (run_handler ws schedule (Finished r) w).1 = Finished r.
Proof.
  revert w. induction schedule as [|burst rest IH]; intros w; [reflexivity|].
  cbn [run_handler handler_step]. apply IH.
Qed.

(** C9: taking a connection out of the registry the way the program does
    it, behind a membership test, cannot raise and is idempotent: from any
    registry, present or absent, it leaves the registry without the
    connection, and doing it again changes nothing.  The one bare
    [remove] of the source sits in the [except WebSocketDisconnect] clause
    of [websocket_screenshot]; under every interleaving the only exception
    [screenshot_loop] lets out is the [RuntimeError] of its page guard, so
    that clause is never entered, and the only exception the endpoint lets
    out, resumed from [accept] in any world, is one raised by [accept]. *)
Theorem unregister_is_idempotent (ws : WebSocket) (w : World)
    (schedule : list (list EnvAction)) :
  ((remove_if_present ws w).1 = Ok tt
   ∧ active_connections (state (remove_if_present ws w).2)
     = active_connections (state w) ∖ {[ws]}
   ∧ remove_if_present ws (remove_if_present ws w).2
     = (Ok tt, (remove_if_present ws w).2))
  ∧ match (run_loop ws schedule AtEntry w).1 with
    | Returned (Raise e) => cls e = RuntimeError
    | _ => True
    end
  ∧ match (run_handler ws schedule AwaitAccept w).1 with
    | Finished (Raise e) => raises w (Accept ws) = Some e
    | _ => True
    end.
Proof.
  split; [|split].
  - rewrite remove_if_present_run. cbn [fst snd]. repeat split.
    apply remove_if_present_absent, difference_gone.
  - apply (run_loop_quiet ws schedule AtEntry w I).
  - destruct schedule as [|burst rest]; [exact I|].
    cbn [run_handler handler_step].
    destruct (raises w (Accept ws)) as [e|] eqn:Hacc.
    + rewrite run_handler_finished. reflexivity.
    + set (w1 := (register ws w).2).
      pose proof (after_loop_calm ws AtEntry w1 (or_introl eq_refl)) as Hcalm.
      destruct (after_loop ws (loop_step ws AtEntry w1)) as [pc1 w2].
      pose proof (run_handler_calm ws rest pc1 (env_burst burst w2) Hcalm)
        as Hend.
      destruct (run_handler ws rest pc1 (env_burst burst w2)).1
        as [|lp|[u|e]]; try exact I.
      discriminate Hend.
Qed.

(** * Further properties *)

(** ** Startup and shutdown *)

(** [init_browser] under any oracle: the calls it issues, what it returns
    and the handles it leaves. *)
Lemma init_browser_run (w : World) :
  (init_browser w).1 = outcome (until_failure (raises w) acquisitions).2
  ∧ calls (init_browser w).2
    = calls w ++ (until_failure (raises w) acquisitions).1
  ∧ raises (init_browser w).2 = raises w
  ∧ logged (init_browser w).2 = logged w
  ∧ active_connections (state (init_browser w).2)
    = active_connections (state w)
  ∧ playwright (state (init_browser w).2)
    = (if bool_decide (1 ≤ succeeded (raises w) acquisitions)
       then Some {| pw_stopped := false |} else playwright (state w))
  ∧ browser (state (init_browser w).2)
    = (if bool_decide (2 ≤ succeeded (raises w) acquisitions)
       then Some {| br_closed := false |} else browser (state w))
  ∧ context (state (init_browser w).2)
    = (if bool_decide (3 ≤ succeeded (raises w) acquisitions)
       then Some {| ctx_closed := false |} else context (state w))
  ∧ page (state (init_browser w).2)
    = (if bool_decide (4 ≤ succeeded (raises w) acquisitions)
       then Some blank_page else page (state w)).
Proof.
  destruct w as [s r c l]. destruct s as [pw br cx pg ac].
  unfold init_browser, succeeded, acquisitions, outcome, outside_call,
    modify_state, page_call, mbind, M_bind, mret, M_ret.
  cbn [until_failure raises state calls logged record_call set_state].
  destruct (r PlaywrightStart) as [e1|] eqn:H1;
    destruct (r ChromiumLaunch) as [e2|] eqn:H2;
    destruct (r (NewContext 1280 800)) as [e3|] eqn:H3;
    destruct (r NewPage) as [e4|] eqn:H4;
    destruct (r (Goto "about:blank" None)) as [e5|] eqn:H5;
    repeat (cbn; rewrite ?H1, ?H2, ?H3, ?H4, ?H5);
    rewrite <- ?app_assoc; repeat split.
Qed.

Lemma until_failure_healthy (r : Call → option exn) (l : list Call) :
  (∀ c, r c = None) → until_failure r l = (l, None).
Proof.
  intros Hr. induction l as [|c l IH]; [reflexivity|].
  cbn. rewrite Hr, IH. reflexivity.
Qed.

Lemma until_failure_prefix (r : Call → option exn) (l : list Call) :
  (until_failure r l).1 `prefix_of` l.
Proof.
  induction l as [|c l IH]; [reflexivity|].
  cbn. destruct (r c) as [e|].
  - exists l. reflexivity.
  - destruct (until_failure r l) as [done failure]. cbn in *.
    apply prefix_cons, IH.
Qed.

Lemma succeeded_healthy (r : Call → option exn) (l : list Call) :
  (∀ c, r c = None) → succeeded r l = length l.
Proof.
  intros Hr. unfold succeeded. rewrite (until_failure_healthy r l Hr).
  reflexivity.
Qed.

(** [go_back] once its probe has answered. *)
Lemma go_back_run (w : World) (p : Page) :
  page (state w) = Some p →
  raises w (Evaluate HistoryLengthGt1 []) = None →
  go_back w =
    if bool_decide (1 < history_length p) then
      match page_call (GoBack "networkidle")
              (record_call (Evaluate HistoryLengthGt1 []) w) with
      | (Ok _, w') => (Response [("success", VBool true)], w')
      | (Raise e, w') => (HTTPException 500 (str e), w')
      end
    else
      (Response [("success", VBool false);
                 ("error", VStr "No previous page in history")],
       record_call (Evaluate HistoryLengthGt1 []) w).
Proof.
  intros Hp Hr. unfold go_back, command. rewrite Hp. unfold mbind, M_bind.
  rewrite (page_call_ok _ _ p Hp Hr). cbn [engine run_script fst snd truthy].
  rewrite (set_page_same w (record_call (Evaluate HistoryLengthGt1 []) w) p
             eq_refl Hp).
  destruct (bool_decide (1 < history_length p)); cbn [negb]; [|reflexivity].
  destruct (page_call _ _) as [[v|e] w']; reflexivity.
Qed.

(** X1: startup on an engine that does not fault returns normally with
    all four handles set and the page on a single blank entry, and leaves
    the registry alone; the commands are then served, and both history
    guards decline: there is nowhere to go back or forward to. *)
Theorem startup_event_ready (w : World) :
  healthy w →
  (startup_event w).1 = Ok tt
  ∧ issued w (startup_event w).2 = acquisitions
  ∧ handles_present (state (startup_event w).2) = (true, true, true)
  ∧ page (state (startup_event w).2) = Some blank_page
  ∧ active_connections (state (startup_event w).2)
    = active_connections (state w)
  ∧ (go_back (startup_event w).2).1
    = Response [("success", VBool false);
                ("error", VStr "No previous page in history")]
  ∧ (go_forward (startup_event w).2).1
    = Response [("success", VBool false);
                ("error", VStr "No next page in history")].
Proof.
  intros Hh. unfold startup_event.
  destruct (init_browser_run w)
    as (Hres & Hcalls & Hraises & _ & Hreg & Hpw & Hbr & Hcx & Hpg).
  rewrite (succeeded_healthy _ _ Hh) in Hpw, Hbr, Hcx, Hpg.
  rewrite (until_failure_healthy _ _ Hh) in Hres, Hcalls.
  cbn in Hpw, Hbr, Hcx, Hpg.
  assert (Hh' : ∀ c, raises (init_browser w).2 c = None)
    by (intros c; rewrite Hraises; apply Hh).
  split; [exact Hres|]. split; [apply issued_app, Hcalls|].
  split; [unfold handles_present; rewrite Hpw, Hbr, Hcx; reflexivity|].
  split; [exact Hpg|]. split; [exact Hreg|]. split.
  - rewrite (go_back_run _ blank_page Hpg (Hh' _)). reflexivity.
  - rewrite (go_forward_at_end _ blank_page Hpg (Hh' _) eq_refl). reflexivity.
Qed.

(** Startup from nothing on a healthy engine. *)
Lemma startup_event_ready_witness :
  (startup_event boot_world).1 = Ok tt
  ∧ issued boot_world (startup_event boot_world).2 = acquisitions.
Proof.
  pose proof (startup_event_ready boot_world (λ c, eq_refl)) as H.
  exact (conj (proj1 H) (proj1 (proj2 H))).
Defined.

(** X2: whatever the engine does, startup issues its acquisitions in
    source order and stops at the first that raises: that exception comes
    out, nothing after it is attempted, nothing is released, and exactly
    the handles of the acquisitions that succeeded have been set (a handle
    set before is kept otherwise). *)
Theorem startup_event_stops_at_first_failure (w : World) :
  (startup_event w).1 = outcome (until_failure (raises w) acquisitions).2
  ∧ issued w (startup_event w).2 = (until_failure (raises w) acquisitions).1
  ∧ issued w (startup_event w).2 `prefix_of` acquisitions
  ∧ handles_present (state (startup_event w).2)
    = (bool_decide (1 ≤ succeeded (raises w) acquisitions)
       || bool_decide (is_Some (playwright (state w))),
       bool_decide (2 ≤ succeeded (raises w) acquisitions)
       || bool_decide (is_Some (browser (state w))),
       bool_decide (3 ≤ succeeded (raises w) acquisitions)
       || bool_decide (is_Some (context (state w))))
  ∧ page (state (startup_event w).2)
    = (if bool_decide (4 ≤ succeeded (raises w) acquisitions)
       then Some blank_page else page (state w)).
Proof.
  unfold startup_event.
  destruct (init_browser_run w)
    as (Hres & Hcalls & _ & _ & _ & Hpw & Hbr & Hcx & Hpg).
  rewrite (issued_app _ _ _ Hcalls).
  split; [exact Hres|]. split; [reflexivity|].
  split; [apply until_failure_prefix|]. split; [|exact Hpg].
  unfold handles_present. rewrite Hpw, Hbr, Hcx.
  destruct (bool_decide (1 ≤ _)), (bool_decide (2 ≤ _)),
    (bool_decide (3 ≤ _)), (playwright (state w)), (browser (state w)),
    (context (state w)); reflexivity.
Qed.

(** X3: a container that enters and later exits, the engine being well at
    exit: however far startup got from a state without handles, shutdown
    returns normally and issues exactly the releases of what startup
    acquired, last acquired first (the page going with its context), and
    none for what it did not. *)
Theorem lifecycle_releases_what_was_acquired (w : World) :
  unacquired (state w) →
  (ModalApp_shutdown (recovered (ModalApp_startup w).2)).1 = Ok tt
  ∧ issued (recovered (ModalApp_startup w).2)
      (ModalApp_shutdown (recovered (ModalApp_startup w).2)).2
    = omap release_of
        (reverse (take (succeeded (raises w) acquisitions) acquisitions)).
Proof.
  intros (Hpw0 & Hbr0 & Hcx0).
  unfold ModalApp_shutdown, ModalApp_startup, startup_event.
  destruct (init_browser_run w)
    as (_ & _ & _ & _ & _ & Hpw & Hbr & Hcx & _).
  rewrite Hpw0 in Hpw. rewrite Hbr0 in Hbr. rewrite Hcx0 in Hcx.
  destruct (shutdown_event_run (recovered (init_browser w).2) (λ c, eq_refl))
    as (Hres & Hcalls & _ & _).
  split; [exact Hres|]. rewrite (issued_app _ _ _ Hcalls).
  unfold releases_due. cbn [recovered set_raises state].
  rewrite Hpw, Hbr, Hcx.
  destruct (succeeded (raises w) acquisitions) as [|[|[|[|[|[|n]]]]]];
    reflexivity.
Qed.

(** From nothing, on an engine that cannot create a context: the browser and
    the engine are released, in that order. *)
Lemma lifecycle_releases_what_was_acquired_witness :
  issued (recovered (ModalApp_startup (set_raises context_refused boot_world)).2)
    (ModalApp_shutdown
       (recovered (ModalApp_startup (set_raises context_refused boot_world)).2)).2
  = [BrowserClose; PlaywrightStop].
Proof.
  refine (proj2 (lifecycle_releases_what_was_acquired
                   (set_raises context_refused boot_world) _)).
  repeat split.
Defined.

(** [shutdown_event] under any oracle. *)
Lemma shutdown_event_any (w : World) :
  (shutdown_event w).1
  = outcome (until_failure (raises w) (releases_due (state w))).2
  ∧ calls (shutdown_event w).2
    = calls w ++ (until_failure (raises w) (releases_due (state w))).1
  ∧ handles_present (state (shutdown_event w).2) = handles_present (state w)
  ∧ active_connections (state (shutdown_event w).2)
    = active_connections (state w)
  ∧ (succeeded (raises w) (releases_due (state w)) = 0 →
     state (shutdown_event w).2 = state w).
Proof.
  destruct w as [s r c l]. destruct s as [pw br cx pg ac].
  unfold shutdown_event, when_present, release_call, outside_call,
    modify_state, get_state, mbind, M_bind, mret, M_ret, releases_due,
    succeeded.
  destruct (r ContextClose) as [e1|] eqn:H1;
    destruct (r BrowserClose) as [e2|] eqn:H2;
    destruct (r PlaywrightStop) as [e3|] eqn:H3;
    destruct cx, br, pw;
    repeat (cbn; rewrite ?H1, ?H2, ?H3);
    rewrite <- ?app_assoc, ?app_nil_r; repeat split; try done.
Qed.

(** X4: teardown has no [finally]: it issues the releases that are due
    in order and stops at the first that raises, whose exception comes out;
    what was due after it is never released, and if the very first release
    fails nothing at all has changed. *)
Theorem shutdown_event_stops_at_first_failure (w : World) :
  (shutdown_event w).1
  = outcome (until_failure (raises w) (releases_due (state w))).2
  ∧ issued w (shutdown_event w).2
    = (until_failure (raises w) (releases_due (state w))).1
  ∧ issued w (shutdown_event w).2 `prefix_of` releases_due (state w)
  ∧ (succeeded (raises w) (releases_due (state w)) = 0 →
     state (shutdown_event w).2 = state w)
  ∧ (∀ e, is_Some (context (state w)) → raises w ContextClose = Some e →
       (shutdown_event w).1 = Raise e
       ∧ issued w (shutdown_event w).2 = [ContextClose]
       ∧ state (shutdown_event w).2 = state w).
Proof.
  destruct (shutdown_event_any w) as (Hres & Hcalls & _ & _ & Hstate).
  rewrite (issued_app _ _ _ Hcalls).
  split; [exact Hres|]. split; [reflexivity|].
  split; [apply until_failure_prefix|]. split; [exact Hstate|].
  intros e [cx Hcx] He.
  assert (Hfail : until_failure (raises w) (releases_due (state w))
                  = ([ContextClose], Some e)).
  { unfold releases_due. rewrite Hcx. cbn. rewrite He. reflexivity. }
  rewrite Hres, Hfail. repeat split. apply Hstate.
  unfold succeeded. rewrite Hfail. reflexivity.
Qed.

(** A running session on an engine that refuses every release: the context
    close raises, the browser and the engine are never asked. *)
Lemma shutdown_event_stops_at_first_failure_witness :
  (shutdown_event (set_raises rejects_release ready_world)).1
  = Raise (Exn EngineError "Target closed")
  ∧ issued (set_raises rejects_release ready_world)
      (shutdown_event (set_raises rejects_release ready_world)).2
    = [ContextClose]
  ∧ state (shutdown_event (set_raises rejects_release ready_world)).2
    = state (set_raises rejects_release ready_world).
Proof.
  refine (proj2 (proj2 (proj2 (proj2
    (shutdown_event_stops_at_first_failure
       (set_raises rejects_release ready_world)))))
    (Exn EngineError "Target closed") _ _).
  - eexists. reflexivity.
  - reflexivity.
Defined.

(** ** The command handlers *)

Lemma call_bound_ret {A} (a : A) : call_bound (mret a).
Proof. intros w Hp. cbn. split; [reflexivity|]. split; [exact Hp|].
  exists []. rewrite app_nil_r. reflexivity. Qed.

Lemma call_bound_logging (l : LogLevel) (line : string) :
  call_bound (logging l line).
Proof. intros w Hp. cbn. split; [reflexivity|]. split; [exact Hp|].
  exists []. rewrite app_nil_r. reflexivity. Qed.

Lemma call_bound_page_call (c : Call) : call_bound (page_call c).
Proof.
  intros w [p Hp]. unfold page_call. rewrite Hp.
  destruct (raises w c) as [e|] eqn:Hr.
  - exists [], c. split; [reflexivity | exact Hr].
  - destruct (engine c p) as [p' v]. cbn. split; [reflexivity|].
    split; [eauto|]. exists [c]. reflexivity.
Qed.

Lemma call_bound_bind {A B} (m : M A) (f : A → M B) :
  call_bound m → (∀ a, call_bound (f a)) → call_bound (m ≫= f).
Proof.
  intros Hm Hf w Hp. unfold mbind, M_bind. specialize (Hm w Hp).
  destruct (m w) as [[a|e] w1]; [|exact Hm].
  destruct Hm as (Hr1 & Hp1 & l1 & Hc1). specialize (Hf a w1 Hp1).
  destruct (f a w1) as [[b|e] w2].
  - destruct Hf as (Hr2 & Hp2 & l2 & Hc2). split; [congruence|].
    split; [exact Hp2|]. exists (l1 ++ l2).
    rewrite Hc2, Hc1, app_assoc. reflexivity.
  - destruct Hf as (l2 & c & Hc2 & Hr2). exists (l1 ++ l2), c.
    rewrite Hc2, Hc1, Hr1 in *. rewrite <- !app_assoc. auto.
Qed.

Lemma command_explained (body : M JsonResponse) (w : World) :
  call_bound body → error_explained w (command body w).
Proof.
  intros Hb. unfold error_explained, command.
  destruct (page (state w)) as [p|] eqn:Hp; [|cbn; auto].
  specialize (Hb w). rewrite Hp in Hb. specialize (Hb (ex_intro _ p eq_refl)).
  destruct (body w) as [[r|e] w']; cbn; [exact I|].
  split; [reflexivity|]. right.
  destruct Hb as (l & c & Hc & Hr). exists c, e.
  rewrite (issued_app _ _ _ Hc), last_snoc. auto.
Qed.

Lemma page_call_raises (c : Call) (w : World) (p : Page) (e : exn) :
  page (state w) = Some p →
  raises w c = Some e →
  page_call c w = (Raise e, record_call c w).
Proof. intros Hp Hr. unfold page_call. rewrite Hp, Hr. reflexivity. Qed.

Lemma issued_nothing (w : World) : issued w w = [].
Proof. apply issued_app. symmetry. apply app_nil_r. Qed.

(** X5: every HTTP error of a command handler is accounted for.  For hover,
    keyboard, goto, back and forward it has status 500 and is either the
    refusal of a session without page, the world being left as it was, or
    the text of the exception raised by the last call the handler issued:
    a call that failed is never retried nor followed by another.  For click
    there is one more case: the click went through and the error is the
    [TypeError] of the handler's own [evaluate]. *)
Theorem command_errors_accounted_for (w : World) (click : ClickPayload)
    (keyboard : KeyboardPayload) (goto : GotoPayload) :
  error_explained w (hover_coordinate click w)
  ∧ error_explained w (type_keys keyboard w)
  ∧ error_explained w (goto_url goto w)
  ∧ error_explained w (go_back w)
  ∧ error_explained w (go_forward w)
  ∧ click_error_explained click w (click_coordinate click w).
Proof.
  repeat split;
    try (apply command_explained;
         repeat first
           [ apply call_bound_bind; [|intros ?]
           | apply call_bound_page_call
           | apply call_bound_logging
           | apply call_bound_ret
           | match goal with
             | |- call_bound (if ?b then _ else _) => destruct b
             end ]).
  destruct (page (state w)) as [p|] eqn:Hp.
  - destruct (raises w (MouseClick (PrimFloat.mul (x click) 1280)
                          (PrimFloat.mul (y click) 800))) as [e|] eqn:Hr.
    + left. unfold error_explained, click_coordinate, command.
      rewrite Hp. unfold mbind, M_bind.
      rewrite (page_call_raises _ _ p e Hp Hr). cbn [fst snd].
      split; [reflexivity|]. right. eexists _, e.
      split; [|split; [exact Hr | reflexivity]].
      rewrite (issued_app w _ [MouseClick (PrimFloat.mul (x click) 1280)
                                 (PrimFloat.mul (y click) 800)])
        by reflexivity.
      reflexivity.
    + right. rewrite (click_coordinate_run click w p Hp Hr). cbn [fst snd].
      split; [reflexivity|]. split; [|exact Hr].
      apply issued_app. reflexivity.
  - left. unfold error_explained, click_coordinate, command. rewrite Hp.
    cbn. auto.
Qed.

(** X6: a click never reports success.  Whatever the payload and the world,
    [click_coordinate] answers no response at all; on a session with a page
    and a [mouse.click] that does not raise, the click is carried out, the
    pointer is at the target pixel, nothing else is issued, and the answer
    is HTTP 500 with the text of the [TypeError] raised by the handler's
    own [evaluate]. *)
Theorem click_never_reports_success (payload : ClickPayload) (w : World) :
  (∀ r, (click_coordinate payload w).1 ≠ Response r)
  ∧ cls evaluate_arity_error = TypeError
  ∧ (∀ p,
       page (state w) = Some p →
       raises w (MouseClick (PrimFloat.mul (x payload) 1280)
                   (PrimFloat.mul (y payload) 800)) = None →
       (click_coordinate payload w).1
       = HTTPException 500 (str evaluate_arity_error)
       ∧ issued w (click_coordinate payload w).2
         = [MouseClick (PrimFloat.mul (x payload) 1280)
              (PrimFloat.mul (y payload) 800)]
       ∧ pointer_of (click_coordinate payload w).2
         = Some (PrimFloat.mul (x payload) 1280,
                 PrimFloat.mul (y payload) 800)).
Proof.
  split; [|split; [reflexivity|]].
  - intros r. unfold click_coordinate, command.
    destruct (page (state w)) as [p|] eqn:Hp; [|discriminate].
    unfold mbind, M_bind, page_call. rewrite Hp.
    destruct (raises w _); [discriminate|].
    cbn [engine]. unfold evaluate_with_two_arguments. cbn. discriminate.
  - intros p Hp Hr. rewrite (click_coordinate_run payload w p Hp Hr).
    cbn [fst snd]. split; [reflexivity|]. split; [|reflexivity].
    apply issued_app. reflexivity.
Qed.

(** A click in the middle of the running session: the pointer is at pixel
    (640, 400), and the answer is the 500 of the refused [evaluate]. *)
Lemma click_never_reports_success_witness :
  (click_coordinate {| x := 0.5; y := 0.5 |} ready_world).1
  = HTTPException 500
      "Page.evaluate() takes from 2 to 3 positional arguments but 4 were given"
  ∧ pointer_of (click_coordinate {| x := 0.5; y := 0.5 |} ready_world).2
    = Some (640%float, 400%float).
Proof.
  pose proof (proj2 (proj2 (click_never_reports_success
                              {| x := 0.5; y := 0.5 |} ready_world))
                blank_page eq_refl eq_refl) as H.
  exact (conj (proj1 H) (proj2 (proj2 H))).
Defined.

(** X19: [go_forward] never goes forward by itself and never reports
    success.  Its probe compares [history.state] with itself before the
    traversal it has asked for is carried out, so the test always fails:
    the handler issues no navigation call and, when the probe does not
    raise, answers "No next page in history", while the page has moved on
    to the next entry if there was one. *)
Theorem go_forward_never_reports_success (w : World) :
  navigations (issued w (go_forward w).2) = 0
  ∧ (∀ r, (go_forward w).1 = Response r →
          r = [("success", VBool false);
               ("error", VStr "No next page in history")])
  ∧ (∀ p,
       page (state w) = Some p →
       raises w (Evaluate ForwardProbe []) = None →
       (go_forward w).1
       = Response [("success", VBool false);
                   ("error", VStr "No next page in history")]
       ∧ page (state (go_forward w).2) = Some (history_forward p)).
Proof.
  unfold go_forward, command.
  destruct (page (state w)) as [p|] eqn:Hp.
  - unfold mbind, M_bind.
    destruct (raises w (Evaluate ForwardProbe [])) as [e|] eqn:Hr.
    + rewrite (page_call_raises _ _ p e Hp Hr). cbn [fst snd].
      split; [|split; [discriminate | discriminate]].
      rewrite (issued_app w _ [Evaluate ForwardProbe []]) by reflexivity.
      reflexivity.
    + rewrite (page_call_ok _ _ p Hp Hr).
      cbn [engine run_script fst snd].
      rewrite bool_decide_eq_true_2 by reflexivity. cbn [negb truthy].
      cbn [mret M_ret fst snd].
      split; [|split].
      * rewrite (issued_app w _ [Evaluate ForwardProbe []]) by reflexivity.
        reflexivity.
      * intros r Hres. inversion Hres. reflexivity.
      * intros p' Hp' _. inversion Hp'; subst p'. split; reflexivity.
  - cbn [fst snd]. rewrite issued_nothing.
    split; [reflexivity|]. split; [discriminate | discriminate].
Qed.

(** The session that went to a site and back: forward answers that there is
    no next page, and the page is on its second entry again. *)
Lemma go_forward_never_reports_success_witness :
  (go_forward back_on_first_world).1
  = Response [("success", VBool false);
              ("error", VStr "No next page in history")]
  ∧ current <$> page (state back_on_first_world) = Some 0
  ∧ current <$> page (state (go_forward back_on_first_world).2) = Some 1.
Proof.
  pose proof (proj2 (proj2 (go_forward_never_reports_success
                              back_on_first_world))
                _ eq_refl eq_refl) as H.
  split; [exact (proj1 H)|]. split; [reflexivity|].
  rewrite (proj2 H). reflexivity.
Defined.

(** X9: the guard of [go_back] looks at the length of the history, not at
    the position in it.  On the first entry of a history with more than one
    entry the guard passes, [go_back] is issued, does nothing, and the
    handler answers success with the page where it was. *)
Theorem go_back_on_first_entry (w : World) (p : Page) :
  page (state w) = Some p →
  healthy w →
  1 < history_length p →
  current p = 0 →
  (go_back w).1 = Response [("success", VBool true)]
  ∧ issued w (go_back w).2
    = [Evaluate HistoryLengthGt1 []; GoBack "networkidle"]
  ∧ nav_state <$> page (state (go_back w).2) = Some (nav_state p).
Proof.
  intros Hp Hh Hlen Hcur. rewrite (go_back_run w p Hp (Hh _)).
  rewrite bool_decide_eq_true_2 by exact Hlen.
  set (w1 := record_call _ w).
  assert (Hp1 : page (state w1) = Some p) by exact Hp.
  rewrite (page_call_ok _ w1 p Hp1 (Hh _)). cbn [fst snd engine].
  split; [reflexivity|]. split.
  - apply issued_app. cbn. rewrite <- ?app_assoc. reflexivity.
  - cbn. unfold history_back. rewrite Hcur. reflexivity.
Qed.

(** The session that went to a site and back again is on its first entry,
    with two entries in the history. *)
Lemma go_back_on_first_entry_witness :
  (go_back back_on_first_world).1 = Response [("success", VBool true)]
  ∧ nav_state <$> page (state (go_back back_on_first_world).2)
    = nav_state <$> page (state back_on_first_world).
Proof.
  pose proof (go_back_on_first_entry back_on_first_world _ eq_refl
                (λ c, eq_refl)) as H.
  refine (let H' := H _ _ in conj (proj1 H') (proj2 (proj2 H'))).
  - vm_compute. lia.
  - reflexivity.
Defined.

(** ** The streaming endpoint *)

(** When the callee hands back to the endpoint, either it is suspended or
    the endpoint finishes with the connection out of the registry. *)
Lemma after_loop_settled (ws : WebSocket) (pc : LoopPc) (w : World) :
  pc = AtEntry ∨ suspended pc →
  match (after_loop ws (loop_step ws pc w)).1 with
  | AwaitAccept => False
  | InLoop pc' => suspended pc'
  | Finished _ =>
      ws ∉ active_connections (state (after_loop ws (loop_step ws pc w)).2)
  end.
Proof.
  intros Hpc.
  assert (Hexc : ∀ e w0,
    match (after_loop ws (loop_except ws e w0)).1 with
    | AwaitAccept => False
    | InLoop pc' => suspended pc'
    | Finished _ =>
        ws ∉ active_connections (state (after_loop ws (loop_except ws e w0)).2)
    end).
  { intros e w0. rewrite loop_except_run. cbn. apply difference_gone. }
  assert (Hhead :
    match (after_loop ws (loop_head ws w)).1 with
    | AwaitAccept => False
    | InLoop pc' => suspended pc'
    | Finished _ =>
        ws ∉ active_connections (state (after_loop ws (loop_head ws w)).2)
    end).
  { unfold loop_head. destruct (bool_decide _) eqn:Hin.
    - destruct (page (state w)); [exact I | apply Hexc].
    - cbn. apply bool_decide_eq_false in Hin. exact Hin. }
  destruct pc as [| | frame | | r]; cbn [loop_step].
  - destruct (page (state w)); [exact Hhead|]. cbn [after_loop].
    unfold handler_except. cbn [cls]. rewrite remove_if_present_run.
    cbn. apply difference_gone.
  - destruct (raises w screenshot_call); [apply Hexc | exact I].
  - destruct (raises w (SendBytes ws frame)); [apply Hexc | exact I].
  - destruct (raises w (Sleep sleep_interval)); [apply Hexc | exact Hhead].
  - destruct Hpc as [|[]]; discriminate.
Qed.

Lemma run_handler_settled (ws : WebSocket) (schedule : list (list EnvAction)) :
  never_registers ws schedule →
  ∀ (pc : HandlerPc) (w : World),
    match pc with
    | AwaitAccept => False
    | InLoop pc' => suspended pc'
    | Finished _ => ws ∉ active_connections (state w)
    end →
    match (run_handler ws schedule pc w).1 with
    | AwaitAccept => False
    | InLoop pc' => suspended pc'
    | Finished _ =>
        ws ∉ active_connections (state (run_handler ws schedule pc w).2)
    end.
Proof.
  intros Hs. induction Hs as [|burst rest Hb _ IH]; intros pc w Hpc;
    [exact Hpc|].
  cbn [run_handler].
  destruct (handler_step ws pc w) as [pc1 w1] eqn:Hstep.
  apply IH. destruct pc as [|lp|r]; cbn in Hstep.
  - destruct Hpc.
  - pose proof (after_loop_settled ws lp w (or_intror Hpc)) as H.
    rewrite Hstep in H. cbn [fst snd] in H.
    destruct pc1; try exact H. apply env_burst_absent; assumption.
  - injection Hstep as <- <-. apply env_burst_absent; assumption.
Qed.

(** X12: the endpoint never leaves its connection behind.  If the accept
    succeeds (or the connection was not registered to begin with) and no
    other task registers it, then whenever [websocket_screenshot] has
    finished, normally or not, the connection is out of the registry,
    under every interleaving and every behaviour of engine and transport. *)
Theorem endpoint_leaves_no_connection (ws : WebSocket)
    (schedule : list (list EnvAction)) (w : World) :
  never_registers ws schedule →
  raises w (Accept ws) = None ∨ ws ∉ active_connections (state w) →
  ∀ r, (run_handler ws schedule AwaitAccept w).1 = Finished r →
       ws ∉ active_connections (state (run_handler ws schedule AwaitAccept w).2).
Proof.
  intros Hs Hacc r Hfin. destruct Hs as [|burst rest Hb Hrest];
    [discriminate Hfin|].
  cbn [run_handler] in *.
  destruct (handler_step ws AwaitAccept w) as [pc1 w1] eqn:Hstep.
  pose proof (run_handler_settled ws rest Hrest pc1 (env_burst burst w1)) as H.
  rewrite Hfin in H. apply H. clear H Hfin.
  cbn [handler_step] in Hstep.
  destruct (raises w (Accept ws)) as [e|] eqn:He.
  - injection Hstep as <- <-. destruct Hacc as [|Hw]; [discriminate|].
    apply env_burst_absent; assumption.
  - pose proof (after_loop_settled ws AtEntry (register ws w).2
                  (or_introl eq_refl)) as H.
    rewrite Hstep in H. cbn [fst snd] in H.
    destruct pc1; try exact H. apply env_burst_absent; assumption.
Qed.

(** A viewer whose every send fails, with another viewer arriving. *)
Lemma endpoint_leaves_no_connection_witness :
  7 ∉ active_connections
        (state (run_handler 7 [[EnvRegister 8]; []; []] AwaitAccept
                  (set_raises (raises (disconnected_world 7)) ready_world)).2).
Proof.
  refine (endpoint_leaves_no_connection 7 [[EnvRegister 8]; []; []]
            (set_raises (raises (disconnected_world 7)) ready_world)
            _ (or_introl eq_refl) (Ok tt) eq_refl).
  repeat constructor. discriminate.
Defined.

Lemma env_burst_present (ws : WebSocket) (burst : list EnvAction) (w : World) :
  Forall (λ a, a ≠ EnvUnregister ws) burst →
  ws ∈ active_connections (state w) →
  ws ∈ active_connections (state (env_burst burst w)).
Proof.
  intros Hb. revert w. induction Hb as [|a burst Ha _ IH]; intros w Hw;
    [exact Hw|].
  change (ws ∈ active_connections (state (env_burst burst (env_act a w)))).
  apply IH. destruct a as [ws'| ws' | f | r]; cbn; try exact Hw.
  - apply elem_of_union_r, Hw.
  - apply difference_other; [congruence | exact Hw].
Qed.

(** A suspended loop whose connection is registered is, after its next
    step, suspended with the connection registered, or has returned. *)
Lemma loop_step_registered (ws : WebSocket) (pc : LoopPc) (w : World) :
  pc = AtEntry ∨ suspended pc →
  ws ∈ active_connections (state w) →
  match (after_loop ws (loop_step ws pc w)).1 with
  | AwaitAccept => False
  | InLoop pc' =>
      suspended pc'
      ∧ ws ∈ active_connections (state (after_loop ws (loop_step ws pc w)).2)
  | Finished _ => True
  end.
Proof.
  intros Hpc Hw.
  assert (Hexc : ∀ e w0,
    match (after_loop ws (loop_except ws e w0)).1 with
    | AwaitAccept => False
    | InLoop pc' =>
        suspended pc'
        ∧ ws ∈ active_connections (state (after_loop ws (loop_except ws e w0)).2)
    | Finished _ => True
    end) by (intros e w0; rewrite loop_except_run; exact I).
  assert (Hhead :
    match (after_loop ws (loop_head ws w)).1 with
    | AwaitAccept => False
    | InLoop pc' =>
        suspended pc'
        ∧ ws ∈ active_connections (state (after_loop ws (loop_head ws w)).2)
    | Finished _ => True
    end).
  { unfold loop_head. destruct (bool_decide _); [|exact I].
    destruct (page (state w)); [cbn; auto | apply Hexc]. }
  destruct pc as [| | frame | | r]; cbn [loop_step].
  - destruct (page (state w)); [exact Hhead|]. cbn [after_loop].
    unfold handler_except. cbn [cls]. rewrite remove_if_present_run.
    exact I.
  - destruct (raises w screenshot_call); [apply Hexc | cbn; auto].
  - destruct (raises w (SendBytes ws frame)); [apply Hexc | cbn; auto].
  - destruct (raises w (Sleep sleep_interval)); [apply Hexc | exact Hhead].
  - destruct Hpc as [|[]]; discriminate.
Qed.

Lemma run_handler_registered (ws : WebSocket)
    (schedule : list (list EnvAction)) :
  never_unregisters ws schedule →
  ∀ (pc : HandlerPc) (w : World),
    match pc with
    | AwaitAccept => False
    | InLoop pc' => suspended pc' ∧ ws ∈ active_connections (state w)
    | Finished _ => True
    end →
    match (run_handler ws schedule pc w).1 with
    | AwaitAccept => False
    | InLoop pc' =>
        suspended pc'
        ∧ ws ∈ active_connections (state (run_handler ws schedule pc w).2)
    | Finished _ => True
    end.
Proof.
  intros Hs. induction Hs as [|burst rest Hb _ IH]; intros pc w Hpc;
    [exact Hpc|].
  cbn [run_handler].
  destruct (handler_step ws pc w) as [pc1 w1] eqn:Hstep.
  apply IH. destruct pc as [|lp|r]; cbn in Hstep.
  - destruct Hpc.
  - destruct Hpc as [Hsus Hw].
    pose proof (loop_step_registered ws lp w (or_intror Hsus) Hw) as H.
    rewrite Hstep in H. cbn [fst snd] in H.
    destruct pc1; try exact H. destruct H as [H1 H2].
    split; [exact H1 | apply env_burst_present; assumption].
  - injection Hstep as <- <-. exact I.
Qed.

(** X13: a viewer is registered for as long as it is being served.  If the
    accept succeeds and no other task unregisters the connection, then
    whenever the endpoint is inside [screenshot_loop] the loop is suspended
    in one of its awaits and the connection is in the registry. *)
Theorem served_viewer_is_registered (ws : WebSocket)
    (schedule : list (list EnvAction)) (w : World) :
  never_unregisters ws schedule →
  raises w (Accept ws) = None →
  ∀ pc, (run_handler ws schedule AwaitAccept w).1 = InLoop pc →
        suspended pc
        ∧ ws ∈ active_connections
                 (state (run_handler ws schedule AwaitAccept w).2).
Proof.
  intros Hs Hacc pc Hin. destruct Hs as [|burst rest Hb Hrest];
    [discriminate Hin|].
  cbn [run_handler] in *.
  destruct (handler_step ws AwaitAccept w) as [pc1 w1] eqn:Hstep.
  pose proof (run_handler_registered ws rest Hrest pc1 (env_burst burst w1))
    as H.
  rewrite Hin in H. apply H. clear H Hin.
  cbn [handler_step] in Hstep. rewrite Hacc in Hstep.
  assert (Hreg : ws ∈ active_connections (state (register ws w).2))
    by (cbn; apply elem_of_union_l, elem_of_singleton; reflexivity).
  pose proof (loop_step_registered ws AtEntry (register ws w).2
                (or_introl eq_refl) Hreg) as H.
  rewrite Hstep in H. cbn [fst snd] in H.
  destruct pc1; try exact H. destruct H as [H1 H2].
  split; [exact H1 | apply env_burst_present; assumption].
Qed.

(** A viewer served for four resumptions while another one leaves. *)
Lemma served_viewer_is_registered_witness :
  7 ∈ active_connections
        (state (run_handler 7 [[]; [EnvUnregister 8]; []; []] AwaitAccept
                  ready_world).2).
Proof.
  refine (proj2 (served_viewer_is_registered 7
                   [[]; [EnvUnregister 8]; []; []] ready_world
                   _ eq_refl AwaitScreenshot eq_refl)).
  repeat constructor; discriminate.
Defined.

(** ** Viewers do not disturb one another *)

Lemma alike_refl (ws : WebSocket) (w : World) : alike ws w w.
Proof. repeat split; auto. Qed.

Lemma loop_except_alike (ws : WebSocket) (e : exn) (w w' : World) :
  alike ws w w' →
  alike ws (loop_except ws e w).2 (loop_except ws e w').2.
Proof.
  intros (Hr & Hp & Hc & Hm). rewrite !loop_except_run. cbn.
  repeat split; try assumption; intros H; exfalso;
    exact (difference_gone _ _ H).
Qed.

Lemma loop_step_alike (ws : WebSocket) (pc : LoopPc) (w w' : World) :
  alike ws w w' →
  (loop_step ws pc w).1 = (loop_step ws pc w').1
  ∧ alike ws (loop_step ws pc w).2 (loop_step ws pc w').2.
Proof.
  intros Ha. pose proof Ha as (Hr & Hp & Hc & Hm).
  assert (Hb : bool_decide (ws ∈ active_connections (state w))
               = bool_decide (ws ∈ active_connections (state w')))
    by (apply bool_decide_ext, Hm).
  assert (Hcap : captured w = captured w')
    by (unfold captured; rewrite Hp; reflexivity).
  assert (Hexc : ∀ e, (loop_except ws e w).1 = (loop_except ws e w').1
                      ∧ alike ws (loop_except ws e w).2 (loop_except ws e w').2).
  { intros e. split; [|apply loop_except_alike, Ha].
    rewrite !loop_except_run. reflexivity. }
  assert (Hrec : ∀ c, alike ws (record_call c w) (record_call c w')).
  { intros c. repeat split; cbn; try assumption; try apply Hm.
    rewrite Hc. reflexivity. }
  assert (Hhead : (loop_head ws w).1 = (loop_head ws w').1
                  ∧ alike ws (loop_head ws w).2 (loop_head ws w').2).
  { unfold loop_head. rewrite <- Hb, <- Hp.
    destruct (bool_decide (ws ∈ active_connections (state w)));
      [|split; [reflexivity | exact Ha]].
    destruct (page (state w)); [|apply Hexc].
    split; [reflexivity | apply Hrec]. }
  destruct pc as [| | frame | | r]; cbn [loop_step];
    rewrite <- ?Hr, <- ?Hp, <- ?Hcap.
  - destruct (page (state w)); [exact Hhead|].
    split; [reflexivity | exact Ha].
  - destruct (raises w screenshot_call); [apply Hexc|].
    split; [reflexivity | apply Hrec].
  - destruct (raises w (SendBytes ws frame)); [apply Hexc|].
    split; [reflexivity | apply Hrec].
  - destruct (raises w (Sleep sleep_interval)); [apply Hexc | exact Hhead].
  - split; [reflexivity | exact Ha].
Qed.

Lemma env_act_alike (ws : WebSocket) (a : EnvAction) (w w' : World) :
  alike ws w w' → alike ws (env_act a w) (env_act a w').
Proof.
  intros (Hr & Hp & Hc & Hm).
  destruct a as [ws'| ws' | f | r]; repeat split; cbn;
    try assumption; try apply Hm; try (rewrite Hp; reflexivity).
  - rewrite !elem_of_union. tauto.
  - rewrite !elem_of_union. tauto.
  - rewrite !elem_of_difference. tauto.
  - rewrite !elem_of_difference. tauto.
Qed.

Lemma env_act_other (ws : WebSocket) (a : EnvAction) (w w' : World) :
  concerns_other ws a = true →
  alike ws w w' → alike ws (env_act a w) w'.
Proof.
  intros Hother (Hr & Hp & Hc & Hm).
  destruct a as [ws'| ws' | f | r]; try discriminate; cbn in Hother;
    apply negb_true_iff, bool_decide_eq_false in Hother;
    repeat split; cbn; try assumption.
  - rewrite elem_of_union, elem_of_singleton. intros [-> | H];
      [congruence | exact (proj1 Hm H)].
  - intros H. apply elem_of_union_r. exact (proj2 Hm H).
  - rewrite elem_of_difference. intros [H _]. exact (proj1 Hm H).
  - intros H. apply elem_of_difference. split; [exact (proj2 Hm H)|].
    rewrite elem_of_singleton. congruence.
Qed.

Lemma env_burst_alike (ws : WebSocket) (burst : list EnvAction) :
  ∀ w w', alike ws w w' →
    alike ws (env_burst burst w)
      (env_burst (List.filter (λ a, negb (concerns_other ws a)) burst) w').
Proof.
  induction burst as [|a burst IH]; intros w w' Ha; [exact Ha|].
  change (env_burst (a :: burst) w) with (env_burst burst (env_act a w)).
  cbn [List.filter]. destruct (concerns_other ws a) eqn:Hother; cbn [negb].
  - apply IH, env_act_other; assumption.
  - change (env_burst (a :: ?l) w') with (env_burst l (env_act a w')).
    apply IH, env_act_alike, Ha.
Qed.

Lemma run_loop_alike (ws : WebSocket) (schedule : list (list EnvAction)) :
  ∀ pc w w', alike ws w w' →
    (run_loop ws schedule pc w).1
    = (run_loop ws (without_others ws schedule) pc w').1
    ∧ alike ws (run_loop ws schedule pc w).2
        (run_loop ws (without_others ws schedule) pc w').2.
Proof.
  induction schedule as [|burst rest IH]; intros pc w w' Ha;
    [split; [reflexivity | exact Ha]|].
  cbn [without_others map run_loop].
  destruct (loop_step_alike ws pc w w' Ha) as [Hpc Ha1].
  destruct (loop_step ws pc w) as [pc1 w1],
    (loop_step ws pc w') as [pc1' w1']. cbn [fst snd] in *. subst pc1'.
  apply IH, env_burst_alike, Ha1.
Qed.

(** X14: other viewers do not disturb a broadcaster.  Take every arrival
    and departure of another connection out of the interleaving: the loop
    of [ws] ends up where it did, has issued the same calls with the same
    frames, and its own membership is the same. *)
Theorem other_viewers_do_not_matter (ws : WebSocket)
    (schedule : list (list EnvAction)) (pc : LoopPc) (w : World) :
  (run_loop ws schedule pc w).1
  = (run_loop ws (without_others ws schedule) pc w).1
  ∧ calls (run_loop ws schedule pc w).2
    = calls (run_loop ws (without_others ws schedule) pc w).2
  ∧ bool_decide (ws ∈ active_connections (state (run_loop ws schedule pc w).2))
    = bool_decide
        (ws ∈ active_connections
                (state (run_loop ws (without_others ws schedule) pc w).2)).
Proof.
  destruct (run_loop_alike ws schedule pc w w (alike_refl ws w))
    as (Hpc & _ & _ & Hc & Hm).
  split; [exact Hpc|]. split; [exact Hc|]. apply bool_decide_ext, Hm.
Qed.

(** ** A served viewer keeps being served *)

(** X15: a served viewer keeps being served.  With a page, the connection
    registered, an engine and a transport that do not fail, and other
    tasks that neither unregister the connection nor break anything, the
    loop never returns: every resumption issues exactly one call, and the
    frames sent keep up with them, one in every three. *)
Theorem served_loop_never_returns (ws : WebSocket)
    (schedule : list (list EnvAction)) (w : World) :
  serving ws w →
  Forall (Forall (leaves_alone ws)) schedule →
  (∀ r, (run_loop ws schedule AtEntry w).1 ≠ Returned r)
  ∧ length (issued w (run_loop ws schedule AtEntry w).2) = length schedule
  ∧ length schedule
    ≤ 3 * sends_on ws (issued w (run_loop ws schedule AtEntry w).2) + 1.
Proof.
  intros Hw Hs.
  destruct (run_loop_serving ws schedule (calls w) Hs AtEntry w [] Hw
              (eq_sym (app_nil_r _)) eq_refl) as (l & Hc & Hlen & Hcount).
  rewrite (issued_app _ _ _ Hc). cbn in Hlen. split; [|split; [exact Hlen|]].
  - intros r Hr. rewrite Hr in Hcount. exact Hcount.
  - destruct (run_loop ws schedule AtEntry w).1; cbn in Hcount;
      [subst l; cbn in *; lia | lia | lia | lia | destruct Hcount].
Qed.

(** Seven resumptions of viewer 7 while viewer 8 comes and goes and a
    command moves the pointer: seven calls, two of them sends. *)
Lemma served_loop_never_returns_witness :
  length (issued (streaming_world 7)
            (run_loop 7 [[EnvRegister 8]; []; [EnvPage (set_pointer 1 1)];
                         []; [EnvUnregister 8]; []; []]
               AtEntry (streaming_world 7)).2) = 7.
Proof.
  refine (proj1 (proj2 (served_loop_never_returns 7
    [[EnvRegister 8]; []; [EnvPage (set_pointer 1 1)];
     []; [EnvUnregister 8]; []; []] (streaming_world 7) _ _))).
  - split; [eexists; reflexivity|]. split; [|intros c; reflexivity].
    cbn. apply elem_of_union_l, elem_of_singleton. reflexivity.
  - repeat constructor; cbn; discriminate.
Defined.

(** X16: a viewer that connects before startup.  The connection is
    accepted and registered, [screenshot_loop] raises its "Page not
    initialized" before capturing anything, and the endpoint catches it:
    one error line is logged, the connection is unregistered again, no
    call is issued and the endpoint returns normally. *)
Theorem viewer_before_startup (ws : WebSocket) (w : World) :
  page (state w) = None →
  raises w (Accept ws) = None →
  (handler_step ws AwaitAccept w).1 = Finished (Ok tt)
  ∧ logged (handler_step ws AwaitAccept w).2
    = logged w ++ [(ERROR, "WebSocket error: Page not initialized")]
  ∧ calls (handler_step ws AwaitAccept w).2 = calls w
  ∧ active_connections (state (handler_step ws AwaitAccept w).2)
    = active_connections (state w) ∖ {[ws]}.
Proof.
  intros Hp Hacc. cbn [handler_step]. rewrite Hacc.
  cbn [loop_step register modify_state snd state set_state
       set_active_connections page].
  rewrite Hp. cbn [after_loop]. unfold handler_except. cbn [cls].
  rewrite remove_if_present_run. cbn.
  repeat split. apply set_eq. intros k.
  rewrite !elem_of_difference, elem_of_union. tauto.
Qed.

(** A viewer on a process that has not started its browser. *)
Lemma viewer_before_startup_witness :
  (handler_step 7 AwaitAccept boot_world).1 = Finished (Ok tt)
  ∧ logged (handler_step 7 AwaitAccept boot_world).2
    = [(ERROR, "WebSocket error: Page not initialized")].
Proof.
  pose proof (viewer_before_startup 7 boot_world eq_refl eq_refl) as H.
  exact (conj (proj1 H) (proj1 (proj2 H))).
Defined.

(** ** Who touches what *)

Lemma keeps_session_ret {A} (a : A) : keeps_session (mret a).
Proof. intros w. reflexivity. Qed.

Lemma keeps_session_logging (l : LogLevel) (line : string) :
  keeps_session (logging l line).
Proof. intros w. reflexivity. Qed.

Lemma keeps_session_page_call (c : Call) : keeps_session (page_call c).
Proof.
  intros w. unfold page_call. destruct (page (state w)); [|reflexivity].
  destruct (raises w c); [reflexivity|].
  destruct (engine c p). reflexivity.
Qed.

Lemma keeps_session_refused_evaluate :
  keeps_session evaluate_with_two_arguments.
Proof.
  intros w. unfold evaluate_with_two_arguments.
  destruct (page (state w)); reflexivity.
Qed.

Lemma keeps_session_bind {A B} (m : M A) (f : A → M B) :
  keeps_session m → (∀ a, keeps_session (f a)) → keeps_session (m ≫= f).
Proof.
  intros Hm Hf w. unfold mbind, M_bind. specialize (Hm w).
  destruct (m w) as [[a|e] w1]; [|exact Hm].
  rewrite <- Hm. apply Hf.
Qed.

Lemma command_keeps_session (body : M JsonResponse) (w : World) :
  keeps_session body →
  session_frame (state (command body w).2) = session_frame (state w).
Proof.
  intros Hb. unfold command. destruct (page (state w)); [|reflexivity].
  specialize (Hb w). destruct (body w) as [[r|e] w']; exact Hb.
Qed.

(** X17: commands act on the page and on nothing else.  Whatever the
    payload, the world and the outcome, none of the six command handlers
    changes the registry of viewers or the engine, browser and context
    handles. *)
Theorem commands_keep_the_session (w : World) (click : ClickPayload)
    (keyboard : KeyboardPayload) (goto : GotoPayload) :
  session_frame (state (hover_coordinate click w).2) = session_frame (state w)
  ∧ session_frame (state (click_coordinate click w).2)
    = session_frame (state w)
  ∧ session_frame (state (type_keys keyboard w).2) = session_frame (state w)
  ∧ session_frame (state (goto_url goto w).2) = session_frame (state w)
  ∧ session_frame (state (go_back w).2) = session_frame (state w)
  ∧ session_frame (state (go_forward w).2) = session_frame (state w).
Proof.
  repeat split; apply command_keeps_session;
    repeat first
      [ apply keeps_session_bind; [|intros ?]
      | apply keeps_session_page_call
      | apply keeps_session_refused_evaluate
      | apply keeps_session_logging
      | apply keeps_session_ret
      | match goal with
        | |- keeps_session (if ?b then _ else _) => destruct b
        end ].
Qed.

Lemma only_read_refl (ws : WebSocket) (w : World) : only_read ws w w.
Proof. repeat split; auto. Qed.

Lemma only_read_record (ws : WebSocket) (c : Call) (w : World) :
  only_read ws w (record_call c w).
Proof. repeat split; auto. cbn. apply prefix_app_r. reflexivity. Qed.

Lemma only_read_except (ws : WebSocket) (e : exn) (w : World) :
  only_read ws w (loop_except ws e w).2.
Proof. rewrite loop_except_run. repeat split; cbn; auto. Qed.

(** X18: the broadcaster only reads.  Whatever step a loop takes, from any
    point and in any world, the page, the handles and the oracle are as
    before, the call log has only grown, and the registry is as before or
    has lost the loop's own connection: a loop never registers anything and
    never removes another viewer. *)
Theorem broadcaster_only_reads (ws : WebSocket) (pc : LoopPc) (w : World) :
  only_read ws w (loop_step ws pc w).2.
Proof.
  destruct pc as [| | frame | | r]; cbn [loop_step]; unfold loop_head;
    repeat case_match;
    first [ apply only_read_refl | apply only_read_record
          | apply only_read_except ].
Qed.
